(** * SEO Analyzer: sitemap resolution and result aggregation

    A shallow embedding of [sitemap_parser.py] and of the analysis pipeline
    of [main.py], with the properties of the pipeline proved about it.

    Conventions of the embedding.
    - A Python [str] is a [string]: the bytes of its UTF-8 encoding. Byte
      order on UTF-8 is code point order, so [String.le] is the order
      [sorted] uses.  [strip] and [lower] act on the ASCII range only.
    - A Python [set] of strings is a [gset string], a [dict] from URLs to
      documents a [gmap string _].
    - The network is an explicit environment: what a request returns is
      looked up in it, and a request that raises is a lookup that fails. *)

From Stdlib Require Import Ascii ZArith.
From stdpp Require Import gmap strings list sorting pretty.

(** ** Python string operations used by the sources *)

Module Str.

(** The ASCII characters [str.strip()] removes: tab, line feed, vertical
    tab, form feed, carriage return, the separators 0x1c-0x1f and space. *)
Definition is_whitespace (c : ascii) : bool :=
  match c with
  | "009" | "010" | "011" | "012" | "013"
  | "028" | "029" | "030" | "031" | " " => true
  | _ => false
  end%char.

Fixpoint lstrip (s : string) : string :=
  match s with
  | String c s' => if is_whitespace c then lstrip s' else s
  | EmptyString => EmptyString
  end.

Definition rstrip (s : string) : string := String.rev (lstrip (String.rev s)).

(** [s.strip()] *)
Definition strip (s : string) : string := rstrip (lstrip s).

(** [s.rstrip('/')] *)
Fixpoint lstrip_char (c : ascii) (s : string) : string :=
  match s with
  | String d s' => if decide (c = d) then lstrip_char c s' else s
  | EmptyString => EmptyString
  end.

Definition rstrip_char (c : ascii) (s : string) : string :=
  String.rev (lstrip_char c (String.rev s)).

Definition lower_char (c : ascii) : ascii :=
  let n := nat_of_ascii c in
  if (65 <=? n)%nat && (n <=? 90)%nat then ascii_of_nat (n + 32) else c.

(** [s.lower()] *)
Fixpoint lower (s : string) : string :=
  match s with
  | String c s' => String (lower_char c) (lower s')
  | EmptyString => EmptyString
  end.

(** [s.startswith(p)] *)
Definition startswith (s p : string) : bool := String.prefix p s.

(** [p in s] *)
Fixpoint contains (p s : string) : bool :=
  String.prefix p s ||
  match s with
  | String _ s' => contains p s'
  | EmptyString => false
  end.

(** [s.split(sep)] for a one-character separator, as a non-empty list. *)
Fixpoint split (sep : ascii) (s : string) : list string :=
  match s with
  | EmptyString => [EmptyString]
  | String c s' =>
      if decide (c = sep) then EmptyString :: split sep s'
      else match split sep s' with
           | w :: ws => String c w :: ws
           | [] => [String c EmptyString]
           end
  end.

(** [s.split(sep, 1)[1]]: what follows the first [sep]; [None] stands for
    the [IndexError] when [s] has no [sep]. *)
Fixpoint after_first (sep : ascii) (s : string) : option string :=
  match s with
  | EmptyString => None
  | String c s' => if decide (c = sep) then Some s' else after_first sep s'
  end.

(** Truth value of [s] where [s] is a string or [None]. *)
Definition truthy (s : option string) : bool :=
  match s with
  | Some (String _ _) => true
  | _ => false
  end.

(** The double quote character, for the f-strings that quote a value. *)
Definition dquote : string := String "034"%char EmptyString.

End Str.

(** ** XML documents as [xml.etree.ElementTree] presents them *)

Module ET.

(** An element: its qualified tag ([{namespace}name]), its text (the
    character data before the first child, [None] when there is none) and
    its child elements in document order. *)
#[warnings="-register-all"] Inductive Element : Type :=
  | Elem (tag : string) (text : option string) (children : list Element).

Definition tag (e : Element) : string := let 'Elem t _ _ := e in t.
Definition text (e : Element) : option string := let 'Elem _ x _ := e in x.
Definition children (e : Element) : list Element := let 'Elem _ _ c := e in c.

(** The [namespace] dictionary of [parse_sitemap_recursive] has the one
    prefix [sitemap]. *)
Definition sitemap_ns : string := "http://www.sitemaps.org/schemas/sitemap/0.9".

(** The tag the path [sitemap:name] selects. *)
Definition qname (name : string) : string := "{" +:+ sitemap_ns +:+ "}" +:+ name.

(** [e.findall('sitemap:name', namespace)]: the direct children of [e]
    carrying that tag, in document order. *)
Definition findall (e : Element) (name : string) : list Element :=
  filter (λ c, tag c = qname name) (children e).

(** [e.find('sitemap:name', namespace)]: the first such child or [None]. *)
Definition find (e : Element) (name : string) : option Element :=
  head (findall e name).

End ET.

(** ** sitemap_parser.py *)

Module SitemapParser.
Import ET.

(** The accumulators of one [parse_sitemap] call: the two sets the closure
    captures, and the log of the [session.get] calls made so far. *)
Record ParseState : Type := mkParseState {
  all_urls : gset string;
  visited_sitemaps : gset string;
  requests : list string
}.

Definition initial : ParseState :=
  {| all_urls := ∅; visited_sitemaps := ∅; requests := [] |}.

(** [loc_elem = e.find('sitemap:loc', namespace)]; when it is not [None]
    and its text is truthy, the value is [loc_elem.text.strip()]. *)
Definition loc_of (e : Element) : option string :=
  match find e "loc" with
  | Some loc_elem =>
      if Str.truthy (text loc_elem)
      then Str.strip <$> text loc_elem
      else None
  | None => None
  end.

(** The values a loop [for e in root.findall('sitemap:name', namespace)]
    obtains, in order. *)
Definition locs (root : Element) (name : string) : list string :=
  omap loc_of (findall root name).

(** A loop whose body may run out of fuel. *)
Fixpoint for_each {A S : Type} (body : A → S → option S) (l : list A) (s : S)
  : option S :=
  match l with
  | [] => Some s
  | x :: l' =>
      match body x s with
      | Some s' => for_each body l' s'
      | None => None
      end
  end.

(** [parse_sitemap_recursive(url)].  [web] maps a sitemap URL to the root
    element of the document served there; a URL outside [web] is a request
    or a parse that raises, which the [except] clauses turn into a return.
    [fuel] bounds the depth of the recursion; [None] is fuel exhausted.
    The recursion limit of the Python interpreter is not modelled. *)
Fixpoint parse_sitemap_recursive (fuel : nat) (web : gmap string Element)
    (url : string) (st : ParseState) : option ParseState :=
  match fuel with
  | O => None
  | S fuel' =>
      if decide (url ∈ visited_sitemaps st) then Some st
      else
        let st :=
          {| all_urls := all_urls st;
             visited_sitemaps := {[url]} ∪ visited_sitemaps st;
             requests := requests st ++ [url] |} in
        match web !! url with
        | None => Some st
        | Some root =>
            match find root "sitemapindex" with
            | Some _ =>
                for_each (parse_sitemap_recursive fuel' web)
                         (locs root "sitemap") st
            | None =>
                Some {| all_urls := all_urls st ∪ list_to_set (locs root "url");
                        visited_sitemaps := visited_sitemaps st;
                        requests := requests st |}
            end
        end
  end.

(** The run of [parse_sitemap(sitemap_url)] with the depth that suffices
    for [web] (see [parse_sitemap_run_total]). *)
Definition parse_sitemap_run (web : gmap string Element) (sitemap_url : string)
  : option ParseState :=
  parse_sitemap_recursive (S (size web)) web sitemap_url initial.

(** [parse_sitemap(sitemap_url)]: the set [all_urls] at the end. *)
Definition parse_sitemap (web : gmap string Element) (sitemap_url : string)
  : option (gset string) :=
  all_urls <$> parse_sitemap_run web sitemap_url.

(** *** The network as [find_sitemap] and [get_all_urls] see it *)

(** What the code reads of a [requests] response. *)
Record Response : Type := mkResponse {
  status_code : Z;
  content_type_header : option string;  (* headers.get('Content-Type') *)
  response_url : string;                (* response.url *)
  response_text : string                (* response.text *)
}.

(** [urljoin] is [urllib.parse.urljoin].  [session_head allow_redirects url]
    and [session_get url] are the calls of those names; [None] is a call
    that raises [requests.RequestException].  [sitemaps] is the web that
    [parse_sitemap] fetches from. *)
Record Network : Type := mkNetwork {
  urljoin : string → string → string;
  session_head : bool → string → option Response;
  session_get : string → option Response;
  sitemaps : gmap string Element
}.

(** [SitemapParser.__init__]: [self.base_url = base_url.rstrip('/')]. *)
Definition init (base_url : string) : string := Str.rstrip_char "/" base_url.

Definition sitemap_paths : list string :=
  ["/sitemap.xml"; "/sitemap_index.xml"; "/sitemap1.xml"].

(** A loop that returns at the first iteration that yields a value. *)
Fixpoint first_return {A B : Type} (body : A → option B) (l : list A) : option B :=
  match l with
  | [] => None
  | x :: l' =>
      match body x with
      | Some y => Some y
      | None => first_return body l'
      end
  end.

(** The body of the loop of [find_sitemap] over [sitemap_paths]. *)
Definition probe_path (net : Network) (base_url path : string) : option string :=
  let url := urljoin net base_url path in
  match session_head net true url with
  | Some response =>
      if decide (status_code response = 200%Z) then
        let content_type := Str.lower (default "" (content_type_header response)) in
        if Str.contains "xml" content_type then Some (response_url response)
        else None
      else None
  | None => None
  end.

(** The body of the loop of [find_sitemap] over the lines of robots.txt.
    A line that starts with [sitemap:] has a colon, so the [None] of
    [after_first] does not arise. *)
Definition robots_line (net : Network) (line : string) : option string :=
  let line := Str.strip line in
  if Str.startswith (Str.lower line) "sitemap:" then
    match Str.after_first ":" line with
    | Some rest =>
        let sitemap_url := Str.strip rest in
        match session_head net false sitemap_url with
        | Some test_response =>
            if decide (status_code test_response = 200%Z) then Some sitemap_url
            else None
        | None => None
        end
    | None => None
    end
  else None.

(** [find_sitemap()]; [None] is Python's [None]. *)
Definition find_sitemap (net : Network) (base_url : string) : option string :=
  match first_return (probe_path net base_url) sitemap_paths with
  | Some url => Some url
  | None =>
      let robots_url := urljoin net base_url "/robots.txt" in
      match session_get net robots_url with
      | Some response =>
          if decide (status_code response = 200%Z)
          then first_return (robots_line net) (Str.split "010" (response_text response))
          else None
      | None => None
      end
  end.

(** How a call ends: with a value, with an exception, or, in the
    embedding only, with the fuel of the recursion exhausted. *)
Inductive Outcome (A : Type) : Type :=
  | Return (a : A)
  | Raise (exception : string) (message : string)
  | OutOfFuel.
Arguments Return {A} a.
Arguments Raise {A} exception message.
Arguments OutOfFuel {A}.

(** [sorted(list(urls))] *)
Definition sorted (urls : gset string) : list string :=
  merge_sort String.le (elements urls).

Definition no_sitemap_message (base_url : string) : string :=
  "Nepodařilo se najít sitemapu pro " +:+ base_url.

(** [get_all_urls()] *)
Definition get_all_urls (net : Network) (base_url : string) : Outcome (list string) :=
  let sitemap_url := find_sitemap net base_url in
  if Str.truthy sitemap_url then
    match parse_sitemap (sitemaps net) (default "" sitemap_url) with
    | Some urls => Return (sorted urls)
    | None => OutOfFuel
    end
  else Raise "ValueError" (no_sitemap_message base_url).

(** *** Vocabulary of the properties of the resolver *)

(** The request log lists the visited set, without repetition. *)
Definition log_faithful (st : ParseState) : Prop :=
  NoDup (requests st) ∧ ∀ u, u ∈ requests st ↔ u ∈ visited_sitemaps st.

(** [u] is the [loc] value of a [url] entry of a document of [web] that
    [parse_sitemap_recursive] takes for a leaf. *)
Definition from_leaf (web : gmap string Element) (u : string) : Prop :=
  ∃ sitemap_url root,
    web !! sitemap_url = Some root ∧
    find root "sitemapindex" = None ∧
    u ∈ locs root "url".

End SitemapParser.

(** ** main.py *)

Module Main.

(** Modelled from the spec: the value of [result['status']], which is set
    at creation by [seo_scraper.py], a module that is not embedded here;
    the data model has the three severities [ok], [warning] and [error]. *)
Inductive Status : Type := Ok | Warning | Error.

Global Instance Status_eq_dec : EqDecision Status.
Proof. solve_decision. Defined.

(** The severity order [ok < warning < error]. *)
Definition severity (s : Status) : nat :=
  match s with Ok => 0 | Warning => 1 | Error => 2 end.

Definition status_le (s1 s2 : Status) : Prop := severity s1 ≤ severity s2.

(** The value stored under [broken_links_detail]. *)
Record BrokenLinksDetail : Type := mkBrokenLinksDetail {
  detail_broken_links : list string;
  detail_broken_images : list string
}.

(** Modelled from the spec: the dictionary that [validate_page_links] of
    [link_validator.py] returns, a module that is not embedded here, with
    the three keys [main] reads. *)
Record LinkValidation : Type := mkLinkValidation {
  broken_links : list string;
  broken_images : list string;
  total_broken : Z
}.

(** Modelled from the spec: the dictionary that [scrape_url] of
    [seo_scraper.py] returns for a page, a module that is not embedded
    here.  A key read with [result.get] or added later by [main] is an
    [option], [None] standing for a missing key or the value [None];
    [other_attributes] holds the extracted attributes [main] never reads. *)
Record PageResult : Type := mkPageResult {
  url : string;
  title : option string;
  meta_description : option string;
  other_attributes : list (string * string);
  issues : list string;
  status : Status;
  error : option string;
  broken_links_count : option Z;
  broken_links_detail : option BrokenLinksDetail
}.

(** [result['issues'].append(issue)] *)
Definition append_issue (issue : string) (r : PageResult) : PageResult :=
  {| url := url r; title := title r; meta_description := meta_description r;
     other_attributes := other_attributes r;
     issues := issues r ++ [issue];
     status := status r; error := error r;
     broken_links_count := broken_links_count r;
     broken_links_detail := broken_links_detail r |}.

(** [result['status'] = s] *)
Definition set_status (s : Status) (r : PageResult) : PageResult :=
  {| url := url r; title := title r; meta_description := meta_description r;
     other_attributes := other_attributes r;
     issues := issues r;
     status := s; error := error r;
     broken_links_count := broken_links_count r;
     broken_links_detail := broken_links_detail r |}.

(** [result['broken_links_count'] = n] *)
Definition set_broken_links_count (n : Z) (r : PageResult) : PageResult :=
  {| url := url r; title := title r; meta_description := meta_description r;
     other_attributes := other_attributes r;
     issues := issues r;
     status := status r; error := error r;
     broken_links_count := Some n;
     broken_links_detail := broken_links_detail r |}.

(** [result['broken_links_detail'] = d] *)
Definition set_broken_links_detail (d : BrokenLinksDetail) (r : PageResult)
  : PageResult :=
  {| url := url r; title := title r; meta_description := meta_description r;
     other_attributes := other_attributes r;
     issues := issues r;
     status := status r; error := error r;
     broken_links_count := broken_links_count r;
     broken_links_detail := Some d |}.

(** [if result['status'] == 'ok': result['status'] = 'warning'] *)
Definition warn_if_ok (r : PageResult) : PageResult :=
  if decide (status r = Ok) then set_status Warning r else r.

(** *** detect_duplicates *)

(** [collections.Counter]: the keys in the order of their first insertion,
    each with its count. *)
Fixpoint counter_add (key : string) (counter : list (string * nat))
  : list (string * nat) :=
  match counter with
  | [] => [(key, 1)]
  | (k, n) :: rest =>
      if decide (k = key) then (k, S n) :: rest
      else (k, n) :: counter_add key rest
  end.

(** [Counter(values)] *)
Definition Counter (values : list string) : list (string * nat) :=
  foldl (λ counter key, counter_add key counter) [] values.

(** [[v for v, count in counter.items() if count > 1]] *)
Definition more_than_once (counter : list (string * nat)) : list string :=
  fst <$> filter (λ item, 1 < item.2) counter.

(** The body of the loop of [detect_duplicates] over [results], on the
    pair of the lists [titles] and [descriptions]. *)
Definition collect (lists : list string * list string) (result : PageResult)
  : list string * list string :=
  let '(titles, descriptions) := lists in
  let titles :=
    if Str.truthy (title result) then titles ++ [default "" (title result)]
    else titles in
  let descriptions :=
    if Str.truthy (meta_description result)
    then descriptions ++ [default "" (meta_description result)]
    else descriptions in
  (titles, descriptions).

(** The lists [titles] and [descriptions] after the loop. *)
Definition collected (results : list PageResult) : list string * list string :=
  foldl collect ([], []) results.

Definition detect_duplicates (results : list PageResult)
  : list string * list string :=
  let '(titles, descriptions) := collected results in
  let title_counter := Counter titles in
  let description_counter := Counter descriptions in
  let duplicate_titles := more_than_once title_counter in
  let duplicate_descriptions := more_than_once description_counter in
  (duplicate_titles, duplicate_descriptions).

(** *** add_duplicate_warnings *)

(** [value in values] where [value] is a string or [None] and [values] a
    list of strings. *)
Definition is_in (value : option string) (values : list string) : bool :=
  match value with
  | Some v => bool_decide (v ∈ values)
  | None => false
  end.

Definition duplicate_title_issue (title : string) : string :=
  "Duplicitní title: " +:+ Str.dquote +:+ title +:+ Str.dquote.

Definition duplicate_description_issue (description : string) : string :=
  "Duplicitní description: " +:+ Str.dquote +:+ description +:+ Str.dquote.

(** The body of the loop of [add_duplicate_warnings]. *)
Definition add_duplicate_warning (duplicate_titles duplicate_descriptions : list string)
    (result : PageResult) : PageResult :=
  let title := title result in
  let description := meta_description result in
  let result :=
    if is_in title duplicate_titles
    then warn_if_ok (append_issue (duplicate_title_issue (default "" title)) result)
    else result in
  if is_in description duplicate_descriptions
  then warn_if_ok
         (append_issue (duplicate_description_issue (default "" description)) result)
  else result.

(** [add_duplicate_warnings]: the list [results] after the call, which
    updates each dictionary in place. *)
Definition add_duplicate_warnings (results : list PageResult)
    (duplicate_titles duplicate_descriptions : list string) : list PageResult :=
  add_duplicate_warning duplicate_titles duplicate_descriptions <$> results.

(** *** The stages of [main] *)

(** Modelled from the spec: the objects of [seo_scraper.py] and
    [link_validator.py], modules that are not embedded here, as [main]
    calls them.  [fetch_page] gives [str(soup)], or [None] when [soup] is
    falsy. *)
Record Collaborators : Type := mkCollaborators {
  scrape_url : string → PageResult;
  fetch_page : string → option string;
  validate_page_links : string → string → LinkValidation
}.

(** The calls [main] makes on its collaborators, in order. *)
Inductive Event : Type :=
  | NewSEOScraper
  | ScrapeUrl (url : string)
  | NewLinkValidator
  | FetchPage (url : string)
  | ValidatePageLinks (html_content : string) (url : string)
  | Export (output : string).

(** A computation that logs the calls it makes. *)
Definition Logged (A : Type) : Type := A * list Event.

(** A loop that replaces every element by what [body] makes of it. *)
Fixpoint for_results {A B : Type} (body : A → Logged B) (l : list A)
  : Logged (list B) :=
  match l with
  | [] => ([], [])
  | x :: l' =>
      let '(y, log1) := body x in
      let '(ys, log2) := for_results body l' in
      (y :: ys, log1 ++ log2)
  end.

Definition broken_links_issue (total : Z) : string :=
  pretty total +:+ " broken links/obrázků".

(** Lines 203-214: what [main] does to [result] with the dictionary
    [link_validation]. *)
Definition record_link_validation (link_validation : LinkValidation)
    (result : PageResult) : PageResult :=
  let total := total_broken link_validation in
  let result := set_broken_links_count total result in
  let result :=
    set_broken_links_detail
      {| detail_broken_links := broken_links link_validation;
         detail_broken_images := broken_images link_validation |} result in
  if decide (0 < total)%Z then
    let result := append_issue (broken_links_issue total) result in
    let result := warn_if_ok result in
    if decide (5 < total)%Z then set_status Error result else result
  else result.

(** The body of the loop of lines 192-214. *)
Definition validate_result (c : Collaborators) (result : PageResult)
  : Logged PageResult :=
  if Str.truthy (error result) then (result, [])
  else
    match fetch_page c (url result) with
    | Some html_content =>
        let link_validation := validate_page_links c html_content (url result) in
        (record_link_validation link_validation result,
         [FetchPage (url result); ValidatePageLinks html_content (url result)])
    | None => (result, [FetchPage (url result)])
    end.

(** Step 3 of [main], lines 186-218. *)
Definition link_validation_stage (c : Collaborators) (skip_links : bool)
    (results : list PageResult) : Logged (list PageResult) :=
  if negb skip_links then
    let '(results, log) := for_results (validate_result c) results in
    (results, NewLinkValidator :: log)
  else (set_broken_links_count 0 <$> results, []).

(** Step 4 of [main], lines 222-223. *)
Definition duplicate_stage (results : list PageResult)
  : list PageResult * list string * list string :=
  let '(duplicate_titles, duplicate_descriptions) := detect_duplicates results in
  (add_duplicate_warnings results duplicate_titles duplicate_descriptions,
   duplicate_titles, duplicate_descriptions).

(** The arguments [main] reads after parsing the command line. *)
Record Args : Type := mkArgs {
  args_url : string;
  args_output : string;
  args_skip_links : bool;
  args_limit : option Z
}.

(** What a run of [main] comes to. *)
Inductive Run : Type :=
  | Exit (code : Z) (printed : string)
  | Finished (results : list PageResult)
             (duplicate_titles duplicate_descriptions : list string)
             (log : list Event)
  | Diverged.

(** [urls[:args.limit]] under [if args.limit and args.limit > 0]. *)
Definition apply_limit (limit : option Z) (urls : list string) : list string :=
  match limit with
  | Some n => if decide (0 < n)%Z then take (Z.to_nat n) urls else urls
  | None => urls
  end.

(** Steps 2 to 5 of [main], from the list [urls]. *)
Definition analyse (c : Collaborators) (args : Args) (urls : list string) : Run :=
  let '(results, log2) := for_results (λ u, (scrape_url c u, [ScrapeUrl u])) urls in
  let '(results, log3) := link_validation_stage c (args_skip_links args) results in
  let '(results, duplicate_titles, duplicate_descriptions) :=
    duplicate_stage results in
  Finished results duplicate_titles duplicate_descriptions
           (NewSEOScraper :: log2 ++ log3 ++ [Export (args_output args)]).

(** [main()], from the parsed arguments on. *)
Definition main (net : SitemapParser.Network) (c : Collaborators) (args : Args)
  : Run :=
  let url := Str.rstrip_char "/" (args_url args) in
  if negb (Str.startswith url "http://" || Str.startswith url "https://")
  then Exit 1 "Chyba: URL musí začínat http:// nebo https://"
  else
    match SitemapParser.get_all_urls net (SitemapParser.init url) with
    | SitemapParser.Raise _ message =>
        Exit 1 (String "010"%char "Chyba: " +:+ message)
    | SitemapParser.OutOfFuel => Diverged
    | SitemapParser.Return urls =>
        match urls with
        | [] => Exit 1 "Chyba: V sitemapě nebyly nalezeny žádné URL"
        | _ => analyse c args (apply_limit (args_limit args) urls)
        end
    end.

(** *** Vocabulary of the properties of the aggregation *)

(** The number of results whose [field] holds [value]. *)
Definition occurrences (field : PageResult → option string) (value : string)
    (results : list PageResult) : nat :=
  length (filter (λ r, field r = Some value) results).

(** [counter[key]]: the count of [key], 0 for a key the counter lacks. *)
Fixpoint counter_get (key : string) (counter : list (string * nat)) : nat :=
  match counter with
  | [] => 0
  | (k, n) :: rest => if decide (k = key) then n else counter_get key rest
  end.

(** A counter has each key once and no count of 0. *)
Definition counter_wf (counter : list (string * nat)) : Prop :=
  NoDup counter.*1 ∧ Forall (λ item, 0 < item.2) counter.

(** The truthy values of [field] over [results], in order. *)
Definition truthy_values (field : PageResult → option string)
    (results : list PageResult) : list string :=
  omap (λ r, if Str.truthy (field r) then field r else None) results.

(** The calls that check links: constructing the validator, fetching a
    page again for its links, validating the links of a page. *)
Definition is_link_checking_event (e : Event) : bool :=
  match e with
  | NewLinkValidator | FetchPage _ | ValidatePageLinks _ _ => true
  | _ => false
  end.

(** The results and the log of a finished run. *)
Definition results_of (run : Run) : list PageResult :=
  match run with
  | Finished results _ _ _ => results
  | _ => []
  end.

Definition log_of (run : Run) : list Event :=
  match run with
  | Finished _ _ _ log => log
  | _ => []
  end.

(** [r'] is [r] but for its issues and status. *)
Definition same_outside_issues_and_status (r r' : PageResult) : Prop :=
  url r' = url r ∧
  title r' = title r ∧
  meta_description r' = meta_description r ∧
  other_attributes r' = other_attributes r ∧
  error r' = error r ∧
  broken_links_count r' = broken_links_count r ∧
  broken_links_detail r' = broken_links_detail r.

End Main.

(** ** Example documents *)

Module Examples.
Import ET SitemapParser.

Definition el (name : string) (cs : list Element) : Element :=
  Elem (qname name) None cs.

Definition loc (u : string) : Element := Elem (qname "loc") (Some u) [].

(** A sitemap index with two leaf sitemaps of 2 and 3 pages. *)
Definition index_document : Element :=
  el "sitemapindex"
     [ el "sitemap" [loc "https://example.com/pages.xml"];
       el "sitemap" [loc "https://example.com/posts.xml"] ].

Definition pages_document : Element :=
  el "urlset" [ el "url" [loc "https://example.com/"];
                el "url" [loc "https://example.com/about"] ].

Definition posts_document : Element :=
  el "urlset" [ el "url" [loc "https://example.com/p/1"];
                el "url" [loc "https://example.com/p/2"];
                el "url" [loc "https://example.com/p/3"] ].

Definition scenario_B : gmap string Element :=
  {[ "https://example.com/sitemap.xml" := index_document;
     "https://example.com/pages.xml" := pages_document;
     "https://example.com/posts.xml" := posts_document ]}.

(** Documents that [parse_sitemap_recursive] does take for an index: the
    root has a child [sitemapindex].  [a.xml] lists [b.xml] twice and
    [b.xml] points back to [a.xml]. *)
Definition cyclic_web : gmap string Element :=
  {[ "https://example.com/a.xml" :=
       el "root" [ el "sitemapindex" [];
                   el "sitemap" [loc "https://example.com/b.xml"];
                   el "sitemap" [loc "https://example.com/b.xml"];
                   el "sitemap" [loc "https://example.com/pages.xml"] ];
     "https://example.com/b.xml" :=
       el "root" [ el "sitemapindex" [];
                   el "sitemap" [loc "https://example.com/a.xml"] ];
     "https://example.com/pages.xml" := pages_document ]}.

(** A site that serves one sitemap at the first conventional path. *)
Definition serving (document : Element) : Network :=
  {| urljoin := λ base path, base +:+ path;
     session_head := λ _ url,
       if decide (url = "https://example.com/sitemap.xml")
       then Some {| status_code := 200;
                    content_type_header := Some "application/xml; charset=UTF-8";
                    response_url := url;
                    response_text := "" |}
       else None;
     session_get := λ _, None;
     sitemaps := {[ "https://example.com/sitemap.xml" := document ]} |}.

(** A site without a sitemap at the conventional paths, whose robots.txt
    names one. *)
Definition with_robots : Network :=
  {| urljoin := λ base path, base +:+ path;
     session_head := λ _ url,
       if decide (url = "https://example.com/custom.xml")
       then Some {| status_code := 200; content_type_header := None;
                    response_url := url; response_text := "" |}
       else Some {| status_code := 404; content_type_header := Some "text/html";
                    response_url := url; response_text := "" |};
     session_get := λ url,
       if decide (url = "https://example.com/robots.txt")
       then Some {| status_code := 200; content_type_header := Some "text/plain";
                    response_url := url;
                    response_text :=
                      "User-agent: *" +:+ String "010"%char
                        "  SiteMap:  https://example.com/custom.xml " |}
       else None;
     sitemaps := {[ "https://example.com/custom.xml" := pages_document ]} |}.

(** A site where every request fails. *)
Definition unreachable : Network :=
  {| urljoin := λ base path, base +:+ path;
     session_head := λ _ _, None;
     session_get := λ _, None;
     sitemaps := ∅ |}.

(** A leaf sitemap whose entries are not in order, one of them repeated
    with surrounding white space. *)
Definition unordered_document : Element :=
  el "urlset" [ el "url" [loc "https://example.com/c"];
                el "url" [loc "https://example.com/a"];
                el "url" [loc " https://example.com/c "];
                el "url" [loc "https://example.com/b"] ].

(** A page as the scraper returns it on success. *)
Definition page (u t d : string) : Main.PageResult :=
  {| Main.url := u; Main.title := Some t; Main.meta_description := Some d;
     Main.other_attributes := []; Main.issues := []; Main.status := Main.Ok;
     Main.error := None; Main.broken_links_count := None;
     Main.broken_links_detail := None |}.

(** A page whose fetch failed. *)
Definition failed_page (u : string) : Main.PageResult :=
  {| Main.url := u; Main.title := None; Main.meta_description := None;
     Main.other_attributes := []; Main.issues := ["HTTP 500"];
     Main.status := Main.Error;
     Main.error := Some "HTTP 500"; Main.broken_links_count := None;
     Main.broken_links_detail := None |}.

(** Seven broken targets: five links and two images. *)
Definition seven_broken : Main.LinkValidation :=
  {| Main.broken_links := ["/a"; "/b"; "/c"; "/d"; "/e"];
     Main.broken_images := ["/x.png"; "/y.png"];
     Main.total_broken := 7 |}.

(** Collaborators for a site of three pages: [/down] cannot be fetched,
    and every page that can has the seven broken targets. *)
Definition collaborators : Main.Collaborators :=
  {| Main.scrape_url := λ u,
       if decide (u = "https://example.com/down") then failed_page u
       else page u "Home" ("About " +:+ u);
     Main.fetch_page := λ u,
       if decide (u = "https://example.com/down") then None
       else Some "<html></html>";
     Main.validate_page_links := λ _ _, seven_broken |}.

Definition three_urls : list string :=
  ["https://example.com/"; "https://example.com/down"; "https://example.com/about"].

Definition skipping : Main.Args :=
  {| Main.args_url := "https://example.com/"; Main.args_output := "seo_report.xlsx";
     Main.args_skip_links := true; Main.args_limit := None |}.

End Examples.

(** ** Vocabulary of the further properties *)

Module More.
Import ET SitemapParser Main.

(** The sitemap URLs the resolver is led to from [start]: [start] itself,
    and every [loc] value of a [sitemap] entry of a document that is served
    at such a URL and taken for an index. *)
Inductive reachable (web : gmap string Element) (start : string) : string → Prop :=
  | reachable_start : reachable web start start
  | reachable_child (parent : string) (root index : Element) (child : string) :
      reachable web start parent →
      web !! parent = Some root →
      find root "sitemapindex" = Some index →
      child ∈ locs root "sitemap" →
      reachable web start child.

(** [u] is the [loc] value of a [url] entry of a leaf served at one of the
    URLs [among]. *)
Definition leaf_entry (web : gmap string Element) (among : gset string)
    (u : string) : Prop :=
  ∃ sitemap_url root,
    sitemap_url ∈ among ∧
    web !! sitemap_url = Some root ∧
    find root "sitemapindex" = None ∧
    u ∈ locs root "url".

(** What a call of the resolver adds: the visited set grows, and the page
    URLs grow by the entries of the leaves visited meanwhile. *)
Definition adds_leaves (web : gmap string Element) (st st' : ParseState) : Prop :=
  visited_sitemaps st ⊆ visited_sitemaps st' ∧
  ∀ u, u ∈ all_urls st'
       ↔ u ∈ all_urls st
         ∨ leaf_entry web (visited_sitemaps st' ∖ visited_sitemaps st) u.

(** The index documents visited have all their children visited, but for
    the pairs of a parent and a child that are still [pending]. *)
Definition closed_but (web : gmap string Element) (pending : string → string → Prop)
    (st : ParseState) : Prop :=
  ∀ parent root index child,
    parent ∈ visited_sitemaps st →
    web !! parent = Some root →
    find root "sitemapindex" = Some index →
    child ∈ locs root "sitemap" →
    child ∈ visited_sitemaps st ∨ pending parent child.

(** A [HEAD] request to [url] that follows redirects is answered with
    status 200 and a content type that mentions xml, from the final URL
    [found]. *)
Definition qualifies (net : Network) (url found : string) : Prop :=
  ∃ response,
    session_head net true url = Some response ∧
    status_code response = 200%Z ∧
    Str.contains "xml" (Str.lower (default "" (content_type_header response))) = true ∧
    found = response_url response.

(** The line of robots.txt is a [Sitemap:] directive, in any case and with
    any white space around it, for [sitemap_url]. *)
Definition declares (line sitemap_url : string) : Prop :=
  ∃ directive rest,
    Str.strip line = directive +:+ rest ∧
    Str.lower directive = "sitemap:" ∧
    sitemap_url = Str.strip rest.

(** A [HEAD] request to [url] that does not follow redirects is answered
    with status 200. *)
Definition answers (net : Network) (url : string) : Prop :=
  ∃ response,
    session_head net false url = Some response ∧ status_code response = 200%Z.

(** The distinct values of a list, in the order of their first
    occurrence. *)
Fixpoint first_occurrences (values : list string) : list string :=
  match values with
  | [] => []
  | v :: rest => v :: filter (λ w, w ≠ v) (first_occurrences rest)
  end.

(** [r'] has the page fields of [r]: all but the issues, the status and
    the two broken-link fields. *)
Definition same_page_fields (r r' : PageResult) : Prop :=
  url r' = url r ∧
  title r' = title r ∧
  meta_description r' = meta_description r ∧
  other_attributes r' = other_attributes r ∧
  error r' = error r.

(** The URLs of the calls of one kind in a log, in order. *)
Definition scraped (log : list Event) : list string :=
  omap (λ e, match e with ScrapeUrl u => Some u | _ => None end) log.

Definition fetched (log : list Event) : list string :=
  omap (λ e, match e with FetchPage u => Some u | _ => None end) log.

Definition validated (log : list Event) : list string :=
  omap (λ e, match e with ValidatePageLinks _ u => Some u | _ => None end) log.

(** The count of broken targets the link validation obtains for a result:
    none for a result with an error, and none when the page cannot be
    fetched again. *)
Definition broken_count (c : Collaborators) (r : PageResult) : option Z :=
  if Str.truthy (error r) then None
  else (λ html, total_broken (validate_page_links c html (url r)))
         <$> fetch_page c (url r).

(** The test of [main] on the URL it is given. *)
Definition has_scheme (args : Args) : bool :=
  let url := Str.rstrip_char "/" (args_url args) in
  Str.startswith url "http://" || Str.startswith url "https://".

(** The base URL [main] hands to the parser. *)
Definition base_url_of (args : Args) : string :=
  SitemapParser.init (Str.rstrip_char "/" (args_url args)).

(** The string of [k] characters [c]. *)
Fixpoint replicate_char (k : nat) (c : ascii) : string :=
  match k with
  | O => EmptyString
  | S k' => String c (replicate_char k' c)
  end.

(** A site that announces a sitemap it then fails to serve. *)
Definition announcing : Network :=
  {| urljoin := λ base path, base +:+ path;
     session_head := λ _ url,
       Some {| status_code := 200; content_type_header := Some "application/xml";
               response_url := url; response_text := "" |};
     session_get := λ _, None;
     sitemaps := ∅ |}.

(** A run limited to two pages, with the link validation enabled. *)
Definition limited : Args :=
  {| args_url := "https://example.com//"; args_output := "seo_report.xlsx";
     args_skip_links := false; args_limit := Some 2%Z |}.

(** A site whose [/sitemap.xml] cannot be requested and whose
    [/sitemap_index.xml] redirects to the sitemap it serves. *)
Definition redirecting : Network :=
  {| urljoin := λ base path, base +:+ path;
     session_head := λ _ url,
       if decide (url = "https://example.com/sitemap_index.xml")
       then Some {| status_code := 200;
                    content_type_header := Some "text/XML";
                    response_url := "https://www.example.com/sitemaps/main.xml";
                    response_text := "" |}
       else None;
     session_get := λ _, None;
     sitemaps :=
       {[ "https://www.example.com/sitemaps/main.xml" := Examples.pages_document ]} |}.

End More.

(** * Properties *)

Import ET SitemapParser.

(** ** Sitemap resolution *)

Section Resolution.

Variable web : gmap string Element.

(** What holds of the state before a loop holds after it, when every
    iteration keeps it. *)
Lemma for_each_preserves {A S : Type} (P : S → Prop) (body : A → S → option S) :
  (∀ x s s', body x s = Some s' → P s → P s') →
  ∀ l s s', for_each body l s = Some s' → P s → P s'.
Proof.
  intros Hbody l. induction l as [|x l IH]; intros s s' Hrun Hs; simpl in Hrun.
  - by simplify_eq.
  - destruct (body x s) as [s1|] eqn:Hx; [|done]. eauto.
Qed.

(** An induction principle for the resolver: a property of the state that
    survives marking a URL as visited and survives folding a leaf in, holds
    after any call. *)
Lemma parse_sitemap_recursive_preserves (P : ParseState → Prop) :
  (∀ url st, url ∉ visited_sitemaps st → P st →
     P {| all_urls := all_urls st;
          visited_sitemaps := {[url]} ∪ visited_sitemaps st;
          requests := requests st ++ [url] |}) →
  (∀ url root st, web !! url = Some root → find root "sitemapindex" = None →
     P st →
     P {| all_urls := all_urls st ∪ list_to_set (locs root "url");
          visited_sitemaps := visited_sitemaps st;
          requests := requests st |}) →
  ∀ fuel url st st',
    parse_sitemap_recursive fuel web url st = Some st' → P st → P st'.
Proof.
  intros Hvisit Hleaf fuel.
  induction fuel as [|fuel IH]; intros url st st' Hrun Hst; [done|].
  simpl in Hrun. case_decide as Hseen; [by simplify_eq|].
  specialize (Hvisit url st Hseen Hst).
  destruct (web !! url) as [root|] eqn:Hdoc; [|by simplify_eq].
  destruct (find root "sitemapindex") eqn:Hindex.
  - eapply for_each_preserves; [|exact Hrun|exact Hvisit]. eauto.
  - simplify_eq. exact (Hleaf url root _ Hdoc Hindex Hvisit).
Qed.

(** The visited set only grows. *)
Lemma parse_sitemap_recursive_visited fuel url st st' :
  parse_sitemap_recursive fuel web url st = Some st' →
  visited_sitemaps st ⊆ visited_sitemaps st'.
Proof.
  intros Hrun.
  apply (parse_sitemap_recursive_preserves
           (λ s, visited_sitemaps st ⊆ visited_sitemaps s)) in Hrun;
    [done| | |done].
  - intros; simpl; set_solver.
  - intros; simpl; done.
Qed.

Lemma parse_sitemap_recursive_log fuel url st st' :
  parse_sitemap_recursive fuel web url st = Some st' →
  log_faithful st → log_faithful st'.
Proof.
  apply (parse_sitemap_recursive_preserves log_faithful).
  - intros u s Hu [Hnd Hlog]. split; simpl.
    + apply NoDup_app. split_and!; [done| |apply NoDup_singleton].
      intros x Hx ->%list_elem_of_singleton. by apply Hu, Hlog.
    + intros x.
      rewrite elem_of_app, list_elem_of_singleton, Hlog, elem_of_union,
        elem_of_singleton.
      tauto.
  - by intros u root s _ _ [Hnd Hlog].
Qed.

Lemma parse_sitemap_recursive_from_leaf fuel url st st' :
  parse_sitemap_recursive fuel web url st = Some st' →
  (∀ u, u ∈ all_urls st → from_leaf web u) →
  ∀ u, u ∈ all_urls st' → from_leaf web u.
Proof.
  apply (parse_sitemap_recursive_preserves
           (λ s, ∀ u, u ∈ all_urls s → from_leaf web u)).
  - intros; eauto.
  - intros s root s0 Hdoc Hleaf Hs u; simpl.
    rewrite elem_of_union, elem_of_list_to_set. intros [?|?]; [eauto|].
    by exists s, root.
Qed.

(** Fuel beyond the number of documents not yet visited is enough. *)
Lemma parse_sitemap_recursive_enough_fuel fuel :
  ∀ url st,
    size (dom web ∖ visited_sitemaps st) < fuel →
    is_Some (parse_sitemap_recursive fuel web url st).
Proof.
  induction fuel as [|fuel IH]; intros url st Hfuel; [lia|].
  simpl. case_decide as Hseen; [by eexists|].
  destruct (web !! url) as [root|] eqn:Hdoc; [|by eexists].
  destruct (find root "sitemapindex"); [|by eexists].
  set (st1 := {| all_urls := all_urls st;
                 visited_sitemaps := {[url]} ∪ visited_sitemaps st;
                 requests := requests st ++ [url] |}).
  assert (size (dom web ∖ visited_sitemaps st1) < fuel) as Hfuel1.
  { assert (dom web ∖ visited_sitemaps st1 ⊂ dom web ∖ visited_sitemaps st) as Hsub.
    { apply elem_of_dom_2 in Hdoc. subst st1; simpl. split.
      - intros x. rewrite !elem_of_difference, elem_of_union. tauto.
      - intros Hsub. specialize (Hsub url).
        rewrite !elem_of_difference, elem_of_union, elem_of_singleton in Hsub.
        tauto. }
    apply subset_size in Hsub. lia. }
  generalize (locs root "sitemap") as children.
  clearbody st1. clear Hfuel Hseen Hdoc.
  intros children. revert st1 Hfuel1.
  induction children as [|child children IHc]; intros st1 Hfuel1; simpl; [by eexists|].
  destruct (IH child st1 Hfuel1) as [st2 Hchild]. rewrite Hchild.
  apply IHc. apply parse_sitemap_recursive_visited in Hchild.
  assert (dom web ∖ visited_sitemaps st2 ⊆ dom web ∖ visited_sitemaps st1) as Hsub.
  { intros x. rewrite !elem_of_difference. specialize (Hchild x). tauto. }
  apply subseteq_size in Hsub. lia.
Qed.

(** More fuel does not change a result. *)
Lemma for_each_more_fuel {A S : Type} (body body' : A → S → option S) :
  (∀ x s s', body x s = Some s' → body' x s = Some s') →
  ∀ l s s', for_each body l s = Some s' → for_each body' l s = Some s'.
Proof.
  intros Hbody l. induction l as [|x l IH]; intros s s' Hrun; simpl in *; [done|].
  destruct (body x s) as [s1|] eqn:Hx; [|done].
  rewrite (Hbody _ _ _ Hx). eauto.
Qed.

Lemma parse_sitemap_recursive_more_fuel fuel :
  ∀ fuel' url st st',
    fuel ≤ fuel' →
    parse_sitemap_recursive fuel web url st = Some st' →
    parse_sitemap_recursive fuel' web url st = Some st'.
Proof.
  induction fuel as [|fuel IH]; intros fuel' url st st' Hle Hrun; [done|].
  destruct fuel' as [|fuel']; [lia|].
  simpl in *. case_decide; [done|].
  destruct (web !! url) as [root|]; [|done].
  destruct (find root "sitemapindex"); [|done].
  eapply for_each_more_fuel; [|exact Hrun].
  intros; eapply IH; [lia|done].
Qed.

(** [parse_sitemap] returns for every web and every start. *)
Lemma parse_sitemap_run_total sitemap_url :
  is_Some (parse_sitemap_run web sitemap_url).
Proof.
  apply parse_sitemap_recursive_enough_fuel. simpl.
  rewrite difference_empty_L, size_dom. lia.
Qed.

Lemma log_faithful_initial : log_faithful initial.
Proof. split; simpl; [constructor|]. intros u. set_solver. Qed.

End Resolution.

(** *** The sorted list of [get_all_urls] *)

Lemma sorted_elem_of (urls : gset string) (u : string) : u ∈ sorted urls ↔ u ∈ urls.
Proof. unfold sorted. by rewrite merge_sort_Permutation, elem_of_elements. Qed.

Lemma sorted_NoDup (urls : gset string) : NoDup (sorted urls).
Proof. unfold sorted. rewrite merge_sort_Permutation. apply NoDup_elements. Qed.

Lemma sorted_StronglySorted (urls : gset string) :
  StronglySorted String.le (sorted urls).
Proof. apply StronglySorted_merge_sort; apply _. Qed.

Lemma sorted_empty : sorted ∅ = [].
Proof. unfold sorted. by rewrite elements_empty. Qed.

(** [get_all_urls] either raises [ValueError] or returns the sorted
    elements of what [parse_sitemap] returns: the fuel never runs out. *)
Lemma get_all_urls_found (net : Network) (base_url sitemap_url : string) :
  find_sitemap net base_url = Some sitemap_url →
  sitemap_url ≠ "" →
  ∃ st,
    parse_sitemap_run (sitemaps net) sitemap_url = Some st ∧
    get_all_urls net base_url = Return (sorted (all_urls st)).
Proof.
  intros Hfind Hne. unfold get_all_urls. rewrite Hfind.
  destruct sitemap_url as [|c s]; [done|]. simpl.
  destruct (parse_sitemap_run_total (sitemaps net) (String c s)) as [st Hst].
  exists st. split; [done|]. unfold parse_sitemap. by rewrite Hst.
Qed.

Lemma get_all_urls_Return (net : Network) (base_url : string) (urls : list string) :
  get_all_urls net base_url = Return urls →
  ∃ sitemap_url st,
    find_sitemap net base_url = Some sitemap_url ∧
    parse_sitemap_run (sitemaps net) sitemap_url = Some st ∧
    urls = sorted (all_urls st).
Proof.
  unfold get_all_urls, parse_sitemap. intros Hret.
  destruct (find_sitemap net base_url) as [[|c s]|] eqn:Hfind; simpl in Hret; try done.
  destruct (parse_sitemap_run (sitemaps net) (String c s)) as [st|] eqn:Hst;
    simpl in Hret; [|done].
  exists (String c s), st. by simplify_eq.
Qed.

(** A document whose root has no child [sitemapindex], whatever the root
    itself is called, is read as a leaf: one request, and the result is
    the [loc] values of its [url] entries. *)
Lemma parse_sitemap_no_sitemapindex_child
    (web : gmap string Element) (sitemap_url : string) (root : Element) :
  web !! sitemap_url = Some root →
  find root "sitemapindex" = None →
  parse_sitemap_run web sitemap_url
  = Some {| all_urls := list_to_set (locs root "url");
            visited_sitemaps := {[sitemap_url]};
            requests := [sitemap_url] |}.
Proof.
  intros Hdoc Hroot. unfold parse_sitemap_run. simpl.
  rewrite decide_False by set_solver. rewrite Hdoc, Hroot. simpl.
  by rewrite union_empty_l_L, union_empty_r_L.
Qed.

(** The fallback to robots.txt. *)
Example find_sitemap_in_robots :
  find_sitemap Examples.with_robots (init "https://example.com/")
  = Some "https://example.com/custom.xml" ∧
  get_all_urls Examples.with_robots (init "https://example.com/")
  = Return ["https://example.com/"; "https://example.com/about"].
Proof. split; vm_compute; reflexivity. Qed.

(** Scenario A: a plain sitemap at [/sitemap.xml] resolves to its entries,
    sorted. *)
Example scenario_A :
  get_all_urls (Examples.serving Examples.posts_document) "https://example.com"
  = Return ["https://example.com/p/1"; "https://example.com/p/2";
            "https://example.com/p/3"].
Proof. vm_compute. reflexivity. Qed.

(** C1. On a sitemap index, a document whose root element is
    [sitemapindex], with two leaf sitemaps of 2 and 3 pages, the claim
    expects the 5 page URLs; [parse_sitemap] returns none.
    [root.find('sitemap:sitemapindex', namespace)] looks for a child of
    the root called [sitemapindex], which such a document does not have, so
    the index is read as a leaf with no [url] entries and its children are
    never requested, although each child on its own resolves to its 2 and
    3 pages. *)
Theorem C1_sitemap_index_resolves_to_nothing :
  tag Examples.index_document = qname "sitemapindex" ∧
  find Examples.index_document "sitemapindex" = None ∧
  locs Examples.index_document "sitemap"
    = ["https://example.com/pages.xml"; "https://example.com/posts.xml"] ∧
  (length ∘ elements <$>
     parse_sitemap Examples.scenario_B "https://example.com/pages.xml") = Some 2 ∧
  (length ∘ elements <$>
     parse_sitemap Examples.scenario_B "https://example.com/posts.xml") = Some 3 ∧
  (elements <$>
     parse_sitemap Examples.scenario_B "https://example.com/sitemap.xml") = Some [] ∧
  (requests <$>
     parse_sitemap_run Examples.scenario_B "https://example.com/sitemap.xml")
    = Some ["https://example.com/sitemap.xml"].
Proof. repeat split; vm_compute; reflexivity. Qed.

(** C6. Sitemap resolution terminates for every web of documents and every
    start URL: a recursion depth of one more than the number of documents
    always yields a result, more depth yields the same result, and the
    requests made list the visited set without repetition, so every
    sitemap URL is fetched at most once during the call. *)
Theorem C6_resolution_terminates_and_fetches_once
    (web : gmap string Element) (sitemap_url : string) :
  ∃ st,
    parse_sitemap_run web sitemap_url = Some st ∧
    (∀ fuel, size web < fuel →
       parse_sitemap_recursive fuel web sitemap_url initial = Some st) ∧
    NoDup (requests st) ∧
    (∀ u, u ∈ requests st ↔ u ∈ visited_sitemaps st).
Proof.
  destruct (parse_sitemap_run_total web sitemap_url) as [st Hst].
  exists st. split; [done|]. split.
  - intros fuel Hfuel.
    eapply parse_sitemap_recursive_more_fuel; [|exact Hst]. lia.
  - eapply parse_sitemap_recursive_log; [exact Hst|apply log_faithful_initial].
Qed.

(** Duplicate and cyclic references among documents taken for indexes:
    three documents, three requests; a depth of 1 is not enough there. *)
Example cyclic_web_requests :
  (requests <$> parse_sitemap_run Examples.cyclic_web "https://example.com/a.xml")
    = Some ["https://example.com/a.xml"; "https://example.com/b.xml";
            "https://example.com/pages.xml"] ∧
  (sorted <$> parse_sitemap Examples.cyclic_web "https://example.com/a.xml")
    = Some ["https://example.com/"; "https://example.com/about"] ∧
  parse_sitemap_recursive 1 Examples.cyclic_web "https://example.com/a.xml" initial
    = None.
Proof. repeat split; vm_compute; reflexivity. Qed.

(** C8. The list [get_all_urls] returns has no duplicates, is sorted, and
    holds only [loc] values of [url] entries of documents taken for leaf
    sitemaps; a value found in no such entry, such as one that occurs in
    [sitemap] entries of an index only, is not in the list. *)
Theorem C8_urls_unique_sorted_from_leaves
    (net : Network) (base_url : string) (urls : list string)
    (Hreturn : get_all_urls net base_url = Return urls) :
  NoDup urls ∧
  StronglySorted String.le urls ∧
  (∀ u, u ∈ urls → from_leaf (sitemaps net) u) ∧
  (∀ u, (∀ sitemap_url root,
           sitemaps net !! sitemap_url = Some root →
           find root "sitemapindex" = None →
           u ∉ locs root "url") →
        u ∉ urls).
Proof.
  apply get_all_urls_Return in Hreturn as (sitemap_url & st & _ & Hrun & ->).
  assert (∀ u, u ∈ sorted (all_urls st) → from_leaf (sitemaps net) u) as Hleaf.
  { intros u Hu%sorted_elem_of. revert u Hu.
    eapply parse_sitemap_recursive_from_leaf; [exact Hrun|].
    intros u. simpl. set_solver. }
  split_and!; [apply sorted_NoDup|apply sorted_StronglySorted|exact Hleaf|].
  intros u Hnone Hu. destruct (Hleaf u Hu) as (s & root & Hdoc & Hroot & Hin).
  by eapply Hnone.
Qed.

Lemma C8_urls_unique_sorted_from_leaves_witness :
  get_all_urls (Examples.serving Examples.unordered_document) "https://example.com"
    = Return ["https://example.com/a"; "https://example.com/b"; "https://example.com/c"] ∧
  NoDup ["https://example.com/a"; "https://example.com/b"; "https://example.com/c"] ∧
  StronglySorted String.le
    ["https://example.com/a"; "https://example.com/b"; "https://example.com/c"].
Proof.
  assert (get_all_urls (Examples.serving Examples.unordered_document)
            "https://example.com"
          = Return ["https://example.com/a"; "https://example.com/b";
                    "https://example.com/c"]) as Hrun
    by (vm_compute; reflexivity).
  split; [exact Hrun|].
  destruct (C8_urls_unique_sorted_from_leaves _ _ _ Hrun) as (Hnd & Hsorted & _).
  split; [exact Hnd|exact Hsorted].
Defined.

(** What [main] prints and how it exits when [get_all_urls] raises. *)
Lemma main_get_all_urls_raises (net : Network) (c : Main.Collaborators)
    (args : Main.Args) (exception message : string) :
  let url := Str.rstrip_char "/" (Main.args_url args) in
  Str.startswith url "http://" || Str.startswith url "https://" = true →
  get_all_urls net (init url) = Raise exception message →
  Main.main net c args = Main.Exit 1 (String "010"%char "Chyba: " +:+ message).
Proof.
  intros url Hscheme Hraise. unfold Main.main. fold url.
  rewrite Hscheme. simpl. by rewrite Hraise.
Qed.

(** C5. When [find_sitemap] returns nothing, [get_all_urls] raises a
    [ValueError] that says no sitemap was found, and [main] ends the run on
    it with exit code 1; when a sitemap is found and holds no URL,
    [get_all_urls] raises nothing and returns the empty list.  The caller
    is told apart the two conditions. *)
Theorem C5_no_sitemap_raises_empty_sitemap_returns
    (net : Network) (base_url : string)
    (Hnone : find_sitemap net base_url = None)
    (net' : Network) (base_url' sitemap_url : string)
    (Hfound : find_sitemap net' base_url' = Some sitemap_url)
    (Hurl : sitemap_url ≠ "")
    (Hempty : parse_sitemap (sitemaps net') sitemap_url = Some ∅) :
  get_all_urls net base_url = Raise "ValueError" (no_sitemap_message base_url) ∧
  get_all_urls net' base_url' = Return [] ∧
  get_all_urls net base_url ≠ get_all_urls net' base_url' ∧
  (∀ c args,
     let url := Str.rstrip_char "/" (Main.args_url args) in
     Str.startswith url "http://" || Str.startswith url "https://" = true →
     init url = base_url →
     Main.main net c args
       = Main.Exit 1 (String "010"%char "Chyba: " +:+ no_sitemap_message base_url)).
Proof.
  assert (get_all_urls net base_url
          = Raise "ValueError" (no_sitemap_message base_url)) as Hraise.
  { unfold get_all_urls. by rewrite Hnone. }
  assert (get_all_urls net' base_url' = Return []) as Hreturn.
  { destruct (get_all_urls_found _ _ _ Hfound Hurl) as (st & Hrun & ->).
    unfold parse_sitemap in Hempty. rewrite Hrun in Hempty. simpl in Hempty.
    injection Hempty as ->. by rewrite sorted_empty. }
  split_and!; [done|done|by rewrite Hraise, Hreturn|].
  intros c args url Hscheme Hbase.
  eapply main_get_all_urls_raises; [done|]. fold url. by rewrite Hbase.
Qed.

Lemma C5_no_sitemap_raises_empty_sitemap_returns_witness :
  get_all_urls Examples.unreachable "https://example.com"
    = Raise "ValueError" (no_sitemap_message "https://example.com") ∧
  get_all_urls (Examples.serving (Examples.el "urlset" [])) "https://example.com"
    = Return [].
Proof.
  assert (find_sitemap Examples.unreachable "https://example.com" = None) as Hnone
    by reflexivity.
  assert (find_sitemap (Examples.serving (Examples.el "urlset" [])) "https://example.com"
          = Some "https://example.com/sitemap.xml") as Hfound
    by reflexivity.
  assert ("https://example.com/sitemap.xml" ≠ "") as Hurl by discriminate.
  assert (parse_sitemap (sitemaps (Examples.serving (Examples.el "urlset" [])))
            "https://example.com/sitemap.xml" = Some ∅) as Hempty
    by (vm_compute; reflexivity).
  destruct (C5_no_sitemap_raises_empty_sitemap_returns
              _ _ Hnone _ _ _ Hfound Hurl Hempty) as (Hraise & Hreturn & _).
  split; [exact Hraise|exact Hreturn].
Defined.

(** ** Duplicate detection *)

Import Main.

Section Counters.

Implicit Types (counter : list (string * nat)) (key k : string).

Lemma counter_get_add key k counter :
  counter_get k (counter_add key counter)
  = if decide (key = k) then S (counter_get k counter) else counter_get k counter.
Proof.
  induction counter as [|[k' n] rest IH]; simpl.
  - repeat case_decide; congruence.
  - repeat (case_decide; simpl); congruence.
Qed.

Lemma counter_get_foldl k values counter :
  counter_get k (foldl (λ c key, counter_add key c) counter values)
  = counter_get k counter + length (filter (λ v, v = k) values).
Proof.
  revert counter. induction values as [|v values IH]; intros counter; simpl; [lia|].
  rewrite IH, counter_get_add, filter_cons.
  repeat case_decide; simpl; try congruence; lia.
Qed.

(** The count a [Counter] holds for a key is the number of its
    occurrences in the list counted. *)
Lemma Counter_get k values :
  counter_get k (Counter values) = length (filter (λ v, v = k) values).
Proof. unfold Counter. by rewrite counter_get_foldl. Qed.

Lemma counter_add_keys key k counter :
  k ∈ (counter_add key counter).*1 ↔ k = key ∨ k ∈ counter.*1.
Proof.
  induction counter as [|[k' n] rest IH]; simpl.
  - rewrite list_elem_of_singleton, elem_of_nil. tauto.
  - case_decide; simpl; rewrite !elem_of_cons; [subst k'|rewrite IH]; tauto.
Qed.

Lemma counter_add_wf key counter : counter_wf counter → counter_wf (counter_add key counter).
Proof.
  intros [Hnd Hpos]. induction counter as [|[k' n] rest IH]; simpl.
  - split; [apply NoDup_singleton|]. repeat constructor.
  - apply NoDup_cons in Hnd as [Hk' Hnd]. apply Forall_cons in Hpos as [Hn Hpos].
    case_decide as Hk; simpl.
    + split; [by apply NoDup_cons|]. constructor; [simpl in *; lia|done].
    + destruct (IH Hnd Hpos) as [Hnd' Hpos']. split.
      * apply NoDup_cons. split; [|done].
        intros Hin. simpl in Hin.
        apply (proj1 (counter_add_keys key k' rest)) in Hin as [->|?]; done.
      * by constructor.
Qed.

Lemma Counter_wf values : counter_wf (Counter values).
Proof.
  unfold Counter.
  assert (counter_wf []) as Hnil by (split; constructor).
  revert Hnil. generalize (@nil (string * nat)).
  induction values as [|v values IH]; intros counter Hwf; simpl; [done|].
  by apply IH, counter_add_wf.
Qed.

Lemma counter_wf_elem_of k n counter :
  counter_wf counter → (k, n) ∈ counter ↔ counter_get k counter = n ∧ 0 < n.
Proof.
  intros [Hnd Hpos]. induction counter as [|[k' n'] rest IH]; simpl.
  - split; [by intros ?%elem_of_nil|lia].
  - apply NoDup_cons in Hnd as [Hk' Hnd]. apply Forall_cons in Hpos as [Hn Hpos].
    simpl in *. rewrite elem_of_cons, (IH Hnd Hpos). case_decide as Hk.
    + subst k'. split.
      * intros [?|[Hget Hpos']]; [by simplify_eq|].
        exfalso. apply Hk'. apply list_elem_of_fmap. exists (k, n).
        split; [done|]. by apply (IH Hnd Hpos).
      * intros [-> ?]. by left.
    + split; [intros [?|?]; [by simplify_eq|done]|by right].
Qed.

(** The values a counter reports as duplicated are those it counts more
    than once, each listed once. *)
Lemma more_than_once_elem_of k counter :
  counter_wf counter → k ∈ more_than_once counter ↔ 1 < counter_get k counter.
Proof.
  intros Hwf. unfold more_than_once. rewrite list_elem_of_fmap. split.
  - intros ([k' n] & -> & [Hn Hin]%list_elem_of_filter). simpl in *.
    apply (counter_wf_elem_of _ _ _ Hwf) in Hin as [-> _]. done.
  - intros Hk. exists (k, counter_get k counter). split; [done|].
    apply list_elem_of_filter. split; [done|].
    apply (counter_wf_elem_of _ _ _ Hwf). lia.
Qed.

Lemma more_than_once_NoDup counter : counter_wf counter → NoDup (more_than_once counter).
Proof.
  intros [Hnd _]. unfold more_than_once.
  eapply sublist_NoDup; [exact Hnd|]. apply fmap_sublist, sublist_filter.
Qed.

End Counters.

Section Collected.

Lemma truthy_values_cons field r results :
  truthy_values field (r :: results)
  = (if Str.truthy (field r) then option_list (field r) else [])
    ++ truthy_values field results.
Proof. unfold truthy_values. csimpl. by destruct (field r) as [[|c v]|]. Qed.

Lemma collect_foldl results titles descriptions :
  foldl collect (titles, descriptions) results
  = (titles ++ truthy_values title results,
     descriptions ++ truthy_values meta_description results).
Proof.
  revert titles descriptions.
  induction results as [|r results IH]; intros titles descriptions.
  - simpl. by rewrite !app_nil_r.
  - rewrite !truthy_values_cons.
    set (ts := truthy_values title results) in *.
    set (ds := truthy_values meta_description results) in *.
    destruct (title r) as [[|c t]|] eqn:Ht,
             (meta_description r) as [[|c' d]|] eqn:Hd;
      simpl; rewrite Ht, Hd; simpl; rewrite IH; by rewrite <- ?app_assoc.
Qed.

(** The lists [titles] and [descriptions] hold the truthy values, in the
    order of the results. *)
Lemma collected_truthy_values results :
  collected results
  = (truthy_values title results, truthy_values meta_description results).
Proof. unfold collected. by rewrite collect_foldl. Qed.

(** A falsy value is not collected; a truthy one as often as it occurs. *)
Lemma truthy_values_count field value results :
  length (filter (λ v, v = value) (truthy_values field results))
  = if decide (value = "") then 0 else occurrences field value results.
Proof.
  unfold occurrences.
  induction results as [|r results IH]; [by case_decide|].
  rewrite truthy_values_cons, filter_app, length_app, IH, (filter_cons _ r).
  destruct (field r) as [[|c v]|] eqn:Hfield; simpl;
    rewrite ?filter_cons, ?filter_nil;
    repeat (case_decide; simplify_eq; simpl); done.
Qed.

End Collected.

(** Scenario C: two pages share a title, a third has none. *)
Example scenario_C :
  let results :=
    [Examples.page "https://example.com/" "Home" "Welcome";
     Examples.failed_page "https://example.com/down";
     Examples.page "https://example.com/about" "Home" "About us"] in
  detect_duplicates results = (["Home"], []) ∧
  status <$> (duplicate_stage results).1.1 = [Warning; Error; Warning] ∧
  length ∘ issues <$> (duplicate_stage results).1.1 = [1; 1; 1].
Proof. repeat split; vm_compute; reflexivity. Qed.

(** C2. [detect_duplicates] returns exactly the non-empty titles, and the
    non-empty descriptions, that more than one result carries, each listed
    once; a value that a single result carries is in neither list.  The
    counters count a non-empty value as often as it occurs and hold
    nothing for the empty string, so results with an empty or a missing
    title or description add nothing to them. *)
Theorem C2_detect_duplicates_exact (results : list PageResult) :
  let titles := (collected results).1 in
  let descriptions := (collected results).2 in
  let duplicate_titles := (detect_duplicates results).1 in
  let duplicate_descriptions := (detect_duplicates results).2 in
  (∀ t, t ∈ duplicate_titles ↔ t ≠ "" ∧ 1 < occurrences title t results) ∧
  (∀ d, d ∈ duplicate_descriptions
        ↔ d ≠ "" ∧ 1 < occurrences meta_description d results) ∧
  NoDup duplicate_titles ∧
  NoDup duplicate_descriptions ∧
  (∀ t, counter_get t (Counter titles)
        = if decide (t = "") then 0 else occurrences title t results) ∧
  (∀ d, counter_get d (Counter descriptions)
        = if decide (d = "") then 0 else occurrences meta_description d results).
Proof.
  unfold detect_duplicates. rewrite collected_truthy_values. simpl.
  assert (∀ field v,
            counter_get v (Counter (truthy_values field results))
            = if decide (v = "") then 0 else occurrences field v results) as Hcount.
  { intros field v. by rewrite Counter_get, truthy_values_count. }
  assert (∀ field v,
            v ∈ more_than_once (Counter (truthy_values field results))
            ↔ v ≠ "" ∧ 1 < occurrences field v results) as Hdup.
  { intros field v. rewrite more_than_once_elem_of by apply Counter_wf.
    rewrite Hcount. case_decide; [split; [lia|by intros [? _]]|tauto]. }
  split_and!; auto using more_than_once_NoDup, Counter_wf.
Qed.

(** ** Annotation of the results *)

Global Instance status_le_refl : Reflexive status_le.
Proof. intros s. unfold status_le. lia. Qed.

Global Instance status_le_trans : Transitive status_le.
Proof. intros s1 s2 s3. unfold status_le. lia. Qed.

Section Annotation.

Implicit Types (r result : PageResult) (lv : LinkValidation) (c : Collaborators).

(** The three updates of a status in [main.py], each on its own. *)
Lemma warn_if_ok_status r : status_le (status r) (status (warn_if_ok r)).
Proof.
  unfold warn_if_ok, status_le. case_decide as Hs; simpl; [rewrite Hs; simpl|]; lia.
Qed.

Lemma warn_if_ok_at_least_warning r : status_le Warning (status (warn_if_ok r)).
Proof.
  unfold warn_if_ok, status_le. case_decide as Hs; simpl; [lia|].
  destruct (status r); simpl; [done|lia..].
Qed.

Lemma set_status_Error r : status_le (status r) (status (set_status Error r)).
Proof. unfold status_le. destruct (status r); simpl; lia. Qed.

Lemma warn_if_ok_frame r : same_outside_issues_and_status r (warn_if_ok r).
Proof. unfold warn_if_ok. case_decide; by repeat split. Qed.

Lemma warn_if_ok_issues r : issues (warn_if_ok r) = issues r.
Proof. unfold warn_if_ok. by case_decide. Qed.

Lemma warn_then_status issue r :
  status_le (status r) (status (warn_if_ok (append_issue issue r))).
Proof. exact (warn_if_ok_status (append_issue issue r)). Qed.

Lemma add_duplicate_warning_status dt dd r :
  status_le (status r) (status (add_duplicate_warning dt dd r)).
Proof.
  unfold add_duplicate_warning.
  destruct (is_in (title r) dt), (is_in (meta_description r) dd); [| | |done].
  - etrans; [apply (warn_then_status (duplicate_title_issue (default "" (title r))))|].
    apply warn_then_status.
  - apply warn_then_status.
  - apply warn_then_status.
Qed.

Lemma record_link_validation_status lv r :
  status_le (status r) (status (record_link_validation lv r)).
Proof.
  unfold record_link_validation, warn_if_ok, status_le.
  repeat (case_decide; simpl in *); destruct (status r); simpl; lia || congruence.
Qed.

Lemma validate_result_status c r :
  status_le (status r) (status (validate_result c r).1).
Proof.
  unfold validate_result. destruct (Str.truthy (error r)); [done|].
  destruct (fetch_page c (url r)); [|done]. apply record_link_validation_status.
Qed.

(** The loop over the results keeps their number and their order. *)
Lemma for_results_Forall2 {A B : Type} (R : A → B → Prop) (body : A → Logged B) l :
  (∀ x, R x (body x).1) → Forall2 R l (for_results body l).1.
Proof.
  intros Hbody. induction l as [|x l IH]; simpl; [constructor|].
  specialize (Hbody x). destruct (body x) as [y log1], (for_results body l) as [ys log2].
  by constructor.
Qed.

Lemma for_results_lookup {A B : Type} (body : A → Logged B) l i :
  (for_results body l).1 !! i = (λ x, (body x).1) <$> l !! i.
Proof.
  revert i. induction l as [|x l IH]; intros i; simpl; [done|].
  specialize (IH (pred i)).
  destruct (body x) as [y log1] eqn:Hx, (for_results body l) as [ys log2].
  destruct i; simpl in *; [by rewrite Hx|done].
Qed.

Lemma for_results_log {A B : Type} (P : Event → Prop) (body : A → Logged B) l :
  (∀ x, Forall P (body x).2) → Forall P (for_results body l).2.
Proof.
  intros Hbody. induction l as [|x l IH]; simpl; [constructor|].
  specialize (Hbody x). destruct (body x) as [y log1], (for_results body l) as [ys log2].
  by apply Forall_app.
Qed.

(** C3. The status of a result never decreases in the order
    [ok < warning < error]: not by the duplicate warnings, for any two
    lists of duplicates, and not by the link validation, for any outcome
    of the validation; and so for every result of a list that
    [add_duplicate_warnings] or step 3 of [main] goes over. *)
Theorem C3_status_never_decreases
    (c : Collaborators) (lv : LinkValidation) (skip_links : bool)
    (duplicate_titles duplicate_descriptions : list string)
    (result : PageResult) (results : list PageResult) :
  status_le (status result)
            (status (add_duplicate_warning duplicate_titles duplicate_descriptions result)) ∧
  status_le (status result) (status (record_link_validation lv result)) ∧
  status_le (status result) (status (validate_result c result).1) ∧
  Forall2 (λ r r', status_le (status r) (status r')) results
          (add_duplicate_warnings results duplicate_titles duplicate_descriptions) ∧
  Forall2 (λ r r', status_le (status r) (status r')) results
          (link_validation_stage c skip_links results).1 ∧
  Forall2 (λ r r', status_le (status r) (status r')) results
          (duplicate_stage (link_validation_stage c skip_links results).1).1.1.
Proof.
  assert (Forall2 (λ r r', status_le (status r) (status r')) results
            (link_validation_stage c skip_links results).1) as Hlinks.
  { unfold link_validation_stage. destruct skip_links; simpl.
    - apply Forall2_fmap_r, Forall_Forall2_diag, Forall_forall.
      intros; simpl; reflexivity.
    - pose proof (for_results_Forall2 (λ r r', status_le (status r) (status r'))
                    (validate_result c) results (validate_result_status c)) as H.
      by destruct (for_results (validate_result c) results). }
  assert (∀ l, Forall2 (λ r r', status_le (status r) (status r')) l
                 (duplicate_stage l).1.1) as Hdup.
  { intros l. unfold duplicate_stage. destruct (detect_duplicates l) as [dt dd]. simpl.
    apply Forall2_fmap_r, Forall_Forall2_diag, Forall_forall.
    intros; apply add_duplicate_warning_status. }
  split_and!.
  - apply add_duplicate_warning_status.
  - apply record_link_validation_status.
  - apply validate_result_status.
  - apply Forall2_fmap_r, Forall_Forall2_diag, Forall_forall.
    intros; apply add_duplicate_warning_status.
  - exact Hlinks.
  - eapply Forall2_trans; [|exact Hlinks|apply Hdup].
    intros r1 r2 r3. unfold status_le. lia.
Qed.

End Annotation.

(** ** Link validation and the frame of the annotation *)

Section Stages.

Implicit Types (r result : PageResult) (lv : LinkValidation) (c : Collaborators).

Lemma is_in_false (value : option string) (values : list string) :
  (∀ v, value = Some v → v ∉ values) → is_in value values = false.
Proof.
  intros Hout. destruct value as [v|]; simpl; [|done].
  apply bool_decide_eq_false. by apply Hout.
Qed.

Lemma add_duplicate_warning_frame dt dd r :
  same_outside_issues_and_status r (add_duplicate_warning dt dd r).
Proof.
  unfold add_duplicate_warning, warn_if_ok.
  destruct (is_in (title r) dt), (is_in (meta_description r) dd);
    repeat (case_decide; simpl); by repeat split.
Qed.

Lemma add_duplicate_warning_issues dt dd r :
  issues r `prefix_of` issues (add_duplicate_warning dt dd r).
Proof.
  unfold add_duplicate_warning.
  destruct (is_in (title r) dt), (is_in (meta_description r) dd);
    rewrite ?warn_if_ok_issues; simpl; rewrite ?warn_if_ok_issues; simpl;
    [rewrite <- app_assoc| | |done]; by apply prefix_app_r.
Qed.

Lemma add_duplicate_warning_outside dt dd r :
  is_in (title r) dt = false →
  is_in (meta_description r) dd = false →
  add_duplicate_warning dt dd r = r.
Proof. unfold add_duplicate_warning. by intros -> ->. Qed.

Lemma add_duplicate_warning_Error dt dd r :
  status r = Error → status (add_duplicate_warning dt dd r) = Error.
Proof.
  intros Hr. unfold add_duplicate_warning, warn_if_ok.
  destruct (is_in (title r) dt), (is_in (meta_description r) dd);
    repeat (case_decide; simpl in * ); congruence.
Qed.

(** C4. For a result without an error whose page is fetched again for
    link validation: the count of broken targets is stored; when it is
    more than 0, the issue that starts with the count is appended and the
    status is at least [warning]; when it is more than 5, the status is
    [error], whatever it was. *)
Theorem C4_broken_links_escalate
    (c : Collaborators) (result : PageResult) (html_content : string)
    (Herror : Str.truthy (error result) = false)
    (Hfetch : fetch_page c (url result) = Some html_content) :
  let total := total_broken (validate_page_links c html_content (url result)) in
  let result' := (validate_result c result).1 in
  broken_links_count result' = Some total ∧
  ((0 < total)%Z →
     issues result' = issues result ++ [pretty total +:+ " broken links/obrázků"] ∧
     status_le Warning (status result') ∧
     ∀ dt dd, status_le Warning (status (add_duplicate_warning dt dd result'))) ∧
  ((5 < total)%Z →
     status result' = Error ∧
     ∀ dt dd, status (add_duplicate_warning dt dd result') = Error).
Proof.
  intros total result'.
  assert (result' = record_link_validation
                      (validate_page_links c html_content (url result)) result)
    as Hresult.
  { subst result'. unfold validate_result. by rewrite Herror, Hfetch. }
  clearbody result'. subst result'.
  unfold record_link_validation. fold total.
  split_and!.
  - unfold warn_if_ok. by repeat (case_decide; simpl).
  - intros Hpos. rewrite decide_True by done.
    match goal with |- issues ?r = _ ∧ _ =>
      assert (status_le Warning (status r)) as Hwarning
    end.
    { case_decide; simpl; [unfold status_le; simpl; lia|].
      apply warn_if_ok_at_least_warning. }
    split_and!; [|done|].
    + case_decide; simpl; by rewrite ?warn_if_ok_issues.
    + intros dt dd. etrans; [exact Hwarning|apply add_duplicate_warning_status].
  - intros Hmany. rewrite decide_True by lia. rewrite decide_True by done.
    split; [done|]. intros dt dd. by apply add_duplicate_warning_Error.
Qed.

Lemma C4_broken_links_escalate_witness :
  let result' :=
    (validate_result Examples.collaborators
       (Examples.page "https://example.com/" "Home" "Welcome")).1 in
  broken_links_count result' = Some 7%Z ∧
  issues result' = ["7 broken links/obrázků"] ∧
  status result' = Error.
Proof.
  destruct (C4_broken_links_escalate Examples.collaborators
              (Examples.page "https://example.com/" "Home" "Welcome")
              "<html></html>" eq_refl eq_refl) as (Hcount & Hissue & Hstatus).
  simpl in Hissue, Hstatus.
  split; [exact Hcount|].
  split; [exact (proj1 (Hissue eq_refl))|exact (proj1 (Hstatus eq_refl))].
Defined.

(** Steps 2 to 5 of [main] with the link validation skipped. *)
Lemma analyse_skip_links c (args : Args) (urls : list string) :
  args_skip_links args = true →
  let run := analyse c args urls in
  Forall (λ r, broken_links_count r = Some 0%Z) (results_of run) ∧
  Forall (λ e, is_link_checking_event e = false) (log_of run) ∧
  length (results_of run) = length urls.
Proof.
  intros Hskip run. subst run. unfold analyse. rewrite Hskip.
  pose proof (for_results_log (λ e, is_link_checking_event e = false)
                (λ u, (scrape_url c u, [ScrapeUrl u])) urls) as Hlog.
  pose proof (for_results_Forall2 (λ _ _, True)
                (λ u, (scrape_url c u, [ScrapeUrl u])) urls (λ _, I)) as Hlen.
  apply Forall2_length in Hlen.
  destruct (for_results (λ u, (scrape_url c u, [ScrapeUrl u])) urls)
    as [results log2].
  simpl in *. unfold duplicate_stage.
  destruct (detect_duplicates (set_broken_links_count 0 <$> results)) as [dt dd].
  simpl. split_and!.
  - unfold add_duplicate_warnings. rewrite <- list_fmap_compose.
    apply Forall_fmap, Forall_forall. intros r _. simpl.
    by destruct (add_duplicate_warning_frame dt dd (set_broken_links_count 0 r))
      as (_ & _ & _ & _ & _ & -> & _).
  - constructor; [done|]. apply Forall_app. split.
    + apply Hlog. intros u. by repeat constructor.
    + by repeat constructor.
  - unfold add_duplicate_warnings. by rewrite !length_fmap.
Qed.

(** A run of [main] that gets to the analysis is the analysis of some
    list of URLs. *)
Lemma main_analyse (net : Network) c (args : Args) :
  (results_of (main net c args) = [] ∧ log_of (main net c args) = []) ∨
  ∃ urls, main net c args = analyse c args urls.
Proof.
  unfold main.
  destruct (negb _); [by left|].
  destruct (get_all_urls _ _) as [[|u urls]| |]; [by left| |by left..].
  right. by eexists.
Qed.

(** C7. With the flag to skip the link validation set, every result of the
    finished run has [broken_links_count] 0, and the log of the run has no
    call that checks links: no validator is constructed, no page is
    fetched again and no links are validated.  This holds of a run of
    [main] and of its steps 2 to 5 from any list of URLs, where the run
    has one result for each URL. *)
Theorem C7_skip_links_checks_nothing
    (net : Network) (c : Collaborators) (args : Args) (urls : list string)
    (Hskip : args_skip_links args = true) :
  Forall (λ r, broken_links_count r = Some 0%Z) (results_of (main net c args)) ∧
  Forall (λ e, is_link_checking_event e = false) (log_of (main net c args)) ∧
  Forall (λ r, broken_links_count r = Some 0%Z) (results_of (analyse c args urls)) ∧
  Forall (λ e, is_link_checking_event e = false) (log_of (analyse c args urls)) ∧
  length (results_of (analyse c args urls)) = length urls ∧
  ∀ results,
    link_validation_stage c (args_skip_links args) results
    = (set_broken_links_count 0 <$> results, []).
Proof.
  assert (Forall (λ r, broken_links_count r = Some 0%Z) (results_of (main net c args)) ∧
          Forall (λ e, is_link_checking_event e = false) (log_of (main net c args)))
    as [Hresults Hlog].
  { destruct (main_analyse net c args) as [[-> ->]|[urls' ->]]; [done|].
    by destruct (analyse_skip_links c args urls' Hskip) as (? & ? & _). }
  destruct (analyse_skip_links c args urls Hskip) as (? & ? & ?).
  split_and!; try done. intros results. by rewrite Hskip.
Qed.

Lemma C7_skip_links_checks_nothing_witness :
  let run := analyse Examples.collaborators Examples.skipping Examples.three_urls in
  broken_links_count <$> results_of run = [Some 0%Z; Some 0%Z; Some 0%Z] ∧
  filter (λ e, is_link_checking_event e = true) (log_of run) = [] ∧
  Forall (λ r, broken_links_count r = Some 0%Z) (results_of run).
Proof.
  split; [vm_compute; reflexivity|]. split; [vm_compute; reflexivity|].
  exact (proj1 (proj2 (proj2 (C7_skip_links_checks_nothing
                  Examples.unreachable
                  Examples.collaborators Examples.skipping Examples.three_urls
                  eq_refl)))).
Defined.

(** C9. With link validation enabled, a result whose [error] is set is
    passed over by step 3 of [main]: the loop makes no call for it and
    leaves it as it is, so it receives no [broken_links_count] and no
    [broken_links_detail], and its issues and its status stay; with the
    link validation skipped the same result does receive
    [broken_links_count] 0. *)
Theorem C9_failed_pages_left_alone
    (c : Collaborators) (results : list PageResult) (i : nat) (result : PageResult)
    (Hlookup : results !! i = Some result)
    (Herror : Str.truthy (error result) = true) :
  validate_result c result = (result, []) ∧
  (link_validation_stage c false results).1 !! i = Some result ∧
  (link_validation_stage c true results).1 !! i
    = Some (set_broken_links_count 0 result).
Proof.
  assert (validate_result c result = (result, [])) as Hskip.
  { unfold validate_result. by rewrite Herror. }
  split_and!; [done| |].
  - unfold link_validation_stage. simpl.
    pose proof (for_results_lookup (validate_result c) results i) as Hi.
    destruct (for_results (validate_result c) results) as [results' log].
    simpl in *. rewrite Hi, Hlookup. simpl. by rewrite Hskip.
  - unfold link_validation_stage. simpl. by rewrite list_lookup_fmap, Hlookup.
Qed.

Lemma C9_failed_pages_left_alone_witness :
  let results :=
    [Examples.page "https://example.com/" "Home" "Welcome";
     Examples.failed_page "https://example.com/down"] in
  (link_validation_stage Examples.collaborators false results).1 !! 1
    = Some (Examples.failed_page "https://example.com/down") ∧
  broken_links_count (Examples.failed_page "https://example.com/down") = None ∧
  broken_links_count <$> (link_validation_stage Examples.collaborators true results).1 !! 1
    = Some (Some 0%Z).
Proof.
  destruct (C9_failed_pages_left_alone Examples.collaborators
              [Examples.page "https://example.com/" "Home" "Welcome";
               Examples.failed_page "https://example.com/down"]
              1 (Examples.failed_page "https://example.com/down")
              eq_refl eq_refl) as (_ & Hon & Hoff).
  split; [exact Hon|]. split; [reflexivity|].
  exact (f_equal (fmap broken_links_count) Hoff).
Defined.

(** C10. [add_duplicate_warnings] changes of a result only its issues, by
    appending to them, and its status, by raising it: the URL, the title,
    the description, the other attributes, the error and the broken-link
    fields stay; and a result whose title and description are in neither
    list of duplicates stays as it is. *)
Theorem C10_add_duplicate_warnings_frame
    (results : list PageResult) (duplicate_titles duplicate_descriptions : list string) :
  Forall2
    (λ r r',
       same_outside_issues_and_status r r' ∧
       issues r `prefix_of` issues r' ∧
       status_le (status r) (status r') ∧
       ((∀ t, title r = Some t → t ∉ duplicate_titles) →
        (∀ d, meta_description r = Some d → d ∉ duplicate_descriptions) →
        r' = r))
    results
    (add_duplicate_warnings results duplicate_titles duplicate_descriptions).
Proof.
  unfold add_duplicate_warnings.
  apply Forall2_fmap_r, Forall_Forall2_diag, Forall_forall. intros r _.
  split_and!.
  - apply add_duplicate_warning_frame.
  - apply add_duplicate_warning_issues.
  - apply add_duplicate_warning_status.
  - intros Ht Hd. apply add_duplicate_warning_outside; by apply is_in_false.
Qed.

End Stages.

(** * Further properties *)

Import More.

(** ** What the resolver requests and what it returns *)

Section Reachability.

Variable web : gmap string Element.

Lemma for_each_relates {A S : Type} (R : relation S) (body : A → S → option S) :
  Reflexive R → Transitive R →
  (∀ x s s', body x s = Some s' → R s s') →
  ∀ l s s', for_each body l s = Some s' → R s s'.
Proof.
  intros Hrefl Htrans Hbody l.
  induction l as [|x l IH]; intros s s' Hrun; simpl in Hrun.
  - by simplify_eq.
  - destruct (body x s) as [s1|] eqn:Hx; [|done]. etrans; eauto.
Qed.

(** As [for_each_preserves], the body being run on the elements of the
    list only. *)
Lemma for_each_preserves_elem {A S : Type} (P : S → Prop) (body : A → S → option S) l :
  (∀ x s s', x ∈ l → body x s = Some s' → P s → P s') →
  ∀ s s', for_each body l s = Some s' → P s → P s'.
Proof.
  induction l as [|x l IH]; intros Hbody s s' Hrun Hs; simpl in Hrun.
  - by simplify_eq.
  - destruct (body x s) as [s1|] eqn:Hx; [|done].
    eapply IH; [|exact Hrun|].
    + intros y t t' Hy. apply Hbody. by apply list_elem_of_further.
    + eapply Hbody; [apply list_elem_of_here|exact Hx|exact Hs].
Qed.

Lemma leaf_entry_split (V0 V1 V2 : gset string) u :
  V0 ⊆ V1 → V1 ⊆ V2 →
  leaf_entry web (V2 ∖ V0) u
  ↔ leaf_entry web (V1 ∖ V0) u ∨ leaf_entry web (V2 ∖ V1) u.
Proof.
  intros H01 H12. unfold leaf_entry. split.
  - intros (s & root & [Hs2 Hs0]%elem_of_difference & Hrest).
    destruct (decide (s ∈ V1)) as [Hs1|Hs1]; [left|right];
      exists s, root; rewrite elem_of_difference; tauto.
  - intros [(s & root & [Hs Hs0]%elem_of_difference & Hrest)
           |(s & root & [Hs Hs1]%elem_of_difference & Hrest)];
      exists s, root; rewrite elem_of_difference; split; auto.
Qed.

Lemma adds_leaves_refl : Reflexive (adds_leaves web).
Proof.
  intros st. split; [done|]. intros u. split; [auto|].
  intros [?|(s & root & [? ?]%elem_of_difference & _)]; done.
Qed.

Lemma adds_leaves_trans : Transitive (adds_leaves web).
Proof.
  intros st0 st1 st2 [H01 Hu1] [H12 Hu2]. split; [by etrans|].
  intros u. rewrite Hu2, Hu1, (leaf_entry_split _ _ _ u H01 H12). tauto.
Qed.

(** The entries of the leaves served at the one URL [url]. *)
Lemma leaf_entry_one (V : gset string) url u :
  url ∉ V →
  leaf_entry web (({[url]} ∪ V) ∖ V) u
  ↔ ∃ root, web !! url = Some root ∧
            find root "sitemapindex" = None ∧
            u ∈ locs root "url".
Proof.
  intros Hfresh. unfold leaf_entry. split.
  - intros (s & root & [Hs Hs0]%elem_of_difference & Hrest).
    apply elem_of_union in Hs as [->%elem_of_singleton|?]; [|done].
    by exists root.
  - intros (root & Hrest). exists url, root.
    rewrite elem_of_difference, elem_of_union, elem_of_singleton. tauto.
Qed.

(** Marking as visited a URL that serves no leaf adds no page URL. *)
Lemma adds_leaves_visit st url :
  url ∉ visited_sitemaps st →
  (∀ root, web !! url = Some root → is_Some (find root "sitemapindex")) →
  adds_leaves web st
    {| all_urls := all_urls st;
       visited_sitemaps := {[url]} ∪ visited_sitemaps st;
       requests := requests st ++ [url] |}.
Proof.
  intros Hfresh Hnoleaf. split; [simpl; apply union_subseteq_r|].
  intros u. simpl. rewrite (leaf_entry_one _ _ _ Hfresh). split; [tauto|].
  intros [?|(root & Hdoc & Hleaf & _)]; [done|].
  destruct (Hnoleaf root Hdoc) as [index Hindex]. congruence.
Qed.

(** Folding in a leaf adds its entries. *)
Lemma adds_leaves_leaf st url root :
  url ∉ visited_sitemaps st →
  web !! url = Some root →
  find root "sitemapindex" = None →
  adds_leaves web st
    {| all_urls := all_urls st ∪ list_to_set (locs root "url");
       visited_sitemaps := {[url]} ∪ visited_sitemaps st;
       requests := requests st ++ [url] |}.
Proof.
  intros Hfresh Hdoc Hleaf. split; [simpl; apply union_subseteq_r|].
  intros u. simpl.
  rewrite (leaf_entry_one _ _ _ Hfresh), elem_of_union, elem_of_list_to_set.
  split; [intros [?|?]; eauto|].
  intros [?|(root' & Hdoc' & _ & Hu)]; [by left|]. right. congruence.
Qed.

(** A call adds the entries of the leaves it visits, and nothing else. *)
Lemma parse_sitemap_recursive_adds_leaves fuel :
  ∀ url st st',
    parse_sitemap_recursive fuel web url st = Some st' → adds_leaves web st st'.
Proof.
  induction fuel as [|fuel IH]; intros url st st' Hrun; [done|].
  simpl in Hrun. case_decide as Hseen; [simplify_eq; apply adds_leaves_refl|].
  destruct (web !! url) as [root|] eqn:Hdoc.
  - destruct (find root "sitemapindex") as [index|] eqn:Hindex.
    + eapply adds_leaves_trans.
      * apply (adds_leaves_visit st url Hseen).
        intros root' Hroot'. rewrite Hdoc in Hroot'. simplify_eq. by eexists.
      * eapply for_each_relates;
          [apply adds_leaves_refl|apply adds_leaves_trans| |exact Hrun].
        intros; by eapply IH.
    + simplify_eq. by apply adds_leaves_leaf.
  - simplify_eq. apply adds_leaves_visit; [done|]. intros root Hroot.
    rewrite Hdoc in Hroot. done.
Qed.

(** A call leaves its URL visited. *)
Lemma parse_sitemap_recursive_visits fuel url st st' :
  parse_sitemap_recursive fuel web url st = Some st' → url ∈ visited_sitemaps st'.
Proof.
  destruct fuel as [|fuel]; [done|]. simpl. case_decide as Hseen.
  - by intros; simplify_eq.
  - intros Hrun.
    assert (url ∈ visited_sitemaps
              {| all_urls := all_urls st;
                 visited_sitemaps := {[url]} ∪ visited_sitemaps st;
                 requests := requests st ++ [url] |}) as Hin
      by (simpl; apply elem_of_union_l, elem_of_singleton; done).
    destruct (web !! url) as [root|]; [|by simplify_eq].
    destruct (find root "sitemapindex").
    + revert Hin. generalize (locs root "sitemap"). intros l Hin.
      eapply (for_each_preserves (λ s, url ∈ visited_sitemaps s)); [|exact Hrun|exact Hin].
      intros x s s' Hx Hs. by eapply parse_sitemap_recursive_visited.
    + by simplify_eq.
Qed.

(** Only reachable URLs are visited. *)
Lemma parse_sitemap_recursive_reachable start fuel :
  ∀ url st st',
    parse_sitemap_recursive fuel web url st = Some st' →
    reachable web start url →
    (∀ s, s ∈ visited_sitemaps st → reachable web start s) →
    ∀ s, s ∈ visited_sitemaps st' → reachable web start s.
Proof.
  induction fuel as [|fuel IH]; intros url st st' Hrun Hurl Hst; [done|].
  simpl in Hrun. case_decide as Hseen; [by simplify_eq|].
  assert (∀ s, s ∈ {[url]} ∪ visited_sitemaps st → reachable web start s) as Hst1.
  { intros s [->%elem_of_singleton|?]%elem_of_union; auto. }
  destruct (web !! url) as [root|] eqn:Hdoc; [|by simplify_eq].
  destruct (find root "sitemapindex") as [index|] eqn:Hindex; [|by simplify_eq].
  eapply (for_each_preserves_elem
            (λ s, ∀ x, x ∈ visited_sitemaps s → reachable web start x));
    [|exact Hrun|exact Hst1].
  intros child s s' Hchild Hcall Hs. eapply IH; [exact Hcall| |exact Hs].
  by eapply reachable_child.
Qed.

(** A call leaves no more children unvisited than were pending before. *)
Lemma parse_sitemap_recursive_closed fuel :
  ∀ url st st' pending,
    parse_sitemap_recursive fuel web url st = Some st' →
    closed_but web pending st → closed_but web pending st'.
Proof.
  induction fuel as [|fuel IH]; intros url st st' pending Hrun Hst; [done|].
  simpl in Hrun. case_decide as Hseen; [by simplify_eq|].
  set (st1 := {| all_urls := all_urls st;
                 visited_sitemaps := {[url]} ∪ visited_sitemaps st;
                 requests := requests st ++ [url] |}) in *.
  assert (closed_but web
            (λ p c, pending p c ∨
                    (p = url ∧ ∃ root index,
                       web !! url = Some root ∧
                       find root "sitemapindex" = Some index ∧
                       c ∈ locs root "sitemap")) st1) as Hst1.
  { intros parent root index child Hparent Hdoc Hindex Hchild. simpl in Hparent.
    apply elem_of_union in Hparent as [->%elem_of_singleton|Hparent].
    - right. right. split; [done|]. by exists root, index.
    - destruct (Hst parent root index child Hparent Hdoc Hindex Hchild) as [?|?].
      + left. simpl. by apply elem_of_union_r.
      + right. by left. }
  destruct (web !! url) as [root|] eqn:Hdoc.
  - destruct (find root "sitemapindex") as [index|] eqn:Hindex.
    + assert (closed_but web
                (λ p c, pending p c ∨ (p = url ∧ c ∈ locs root "sitemap")) st1)
        as Hloop.
      { intros parent root' index' child Hparent Hdoc' Hindex' Hchild.
        destruct (Hst1 parent root' index' child Hparent Hdoc' Hindex' Hchild)
          as [?|[?|(-> & r & i & ? & ? & ?)]]; [by left|by right; left|].
        right. right. by simplify_eq. }
      clear Hst1. revert Hrun Hloop. generalize (locs root "sitemap") as children.
      clearbody st1. revert st1.
      intros st1 children. revert st1.
      induction children as [|child children IHc]; intros st1 Hrun Hloop;
        simpl in Hrun.
      * simplify_eq. intros parent r i c Hp Hd Hi Hc.
        destruct (Hloop parent r i c Hp Hd Hi Hc) as [?|[?|[_ []%elem_of_nil]]]; auto.
      * destruct (parse_sitemap_recursive fuel web child st1) as [st2|] eqn:Hchild;
          [|done].
        apply (IHc st2 Hrun).
        pose proof (parse_sitemap_recursive_visits _ _ _ _ Hchild) as Hvisited.
        pose proof (IH _ _ _ _ Hchild Hloop) as Hst2.
        intros parent r i c Hp Hd Hi Hc.
        destruct (Hst2 parent r i c Hp Hd Hi Hc)
          as [?|[?|[-> [->|?]%elem_of_cons]]]; auto.
    + simplify_eq. intros parent r i c Hp Hd Hi Hc.
      destruct (Hst1 parent r i c Hp Hd Hi Hc)
        as [?|[?|(-> & r' & i' & ? & ? & ?)]]; auto. congruence.
  - simplify_eq. intros parent r i c Hp Hd Hi Hc.
    destruct (Hst1 parent r i c Hp Hd Hi Hc)
      as [?|[?|(-> & r' & i' & ? & ? & ?)]]; auto. congruence.
Qed.

(** The requests made are the reachable sitemap URLs. *)
Lemma parse_sitemap_run_requests (start : string) (st : ParseState) :
  parse_sitemap_run web start = Some st →
  ∀ s, s ∈ requests st ↔ reachable web start s.
Proof.
  intros Hrun s.
  pose proof (parse_sitemap_recursive_log _ _ _ _ _ Hrun log_faithful_initial)
    as [_ Hlog].
  rewrite Hlog. split.
  - revert s. eapply parse_sitemap_recursive_reachable;
      [exact Hrun|constructor|].
    intros x Hx. simpl in Hx. by apply elem_of_empty in Hx.
  - assert (closed_but web (λ _ _, False) st) as Hclosed.
    { eapply parse_sitemap_recursive_closed; [exact Hrun|].
      intros parent r i c Hp. simpl in Hp. by apply elem_of_empty in Hp. }
    induction 1 as [|parent root index child _ IH Hdoc Hindex Hchild].
    + by eapply parse_sitemap_recursive_visits.
    + by destruct (Hclosed parent root index child IH Hdoc Hindex Hchild).
Qed.

(** X1. [parse_sitemap] requests exactly the sitemap URLs that can be
    reached from the one it is given through [sitemap] entries of documents
    it takes for indexes: it requests none other, and none of them is left
    out, whether the document of a sibling could be fetched or not. *)
Theorem X1_requests_are_the_reachable_sitemaps
    (start : string) (st : ParseState)
    (Hrun : parse_sitemap_run web start = Some st) :
  ∀ s, s ∈ requests st ↔ reachable web start s.
Proof. by apply parse_sitemap_run_requests. Qed.

(** The page URLs at the end are the entries of the leaves visited. *)
Lemma parse_sitemap_run_all_urls (start : string) (st : ParseState) :
  parse_sitemap_run web start = Some st →
  ∀ u, u ∈ all_urls st ↔ leaf_entry web (visited_sitemaps st) u.
Proof.
  intros Hrun u.
  destruct (parse_sitemap_recursive_adds_leaves _ _ _ _ Hrun) as [_ Hu].
  rewrite Hu. simpl. rewrite difference_empty_L. split; [|by right].
  intros [Hin|?]; [|done]. by apply elem_of_empty in Hin.
Qed.

End Reachability.

Lemma X1_requests_are_the_reachable_sitemaps_witness :
  reachable Examples.cyclic_web "https://example.com/a.xml"
    "https://example.com/pages.xml".
Proof.
  eapply (X1_requests_are_the_reachable_sitemaps Examples.cyclic_web
            "https://example.com/a.xml"
            {| all_urls := list_to_set ["https://example.com/";
                                        "https://example.com/about"];
               visited_sitemaps := list_to_set ["https://example.com/a.xml";
                                                "https://example.com/b.xml";
                                                "https://example.com/pages.xml"];
               requests := ["https://example.com/a.xml";
                            "https://example.com/b.xml";
                            "https://example.com/pages.xml"] |}).
  - vm_compute. reflexivity.
  - simpl. rewrite !elem_of_cons. auto.
Defined.

(** X2. The list [get_all_urls] returns holds exactly the [loc] values of
    the [url] entries of the leaves served at the sitemap URLs reachable
    from the sitemap that [find_sitemap] found. *)
Theorem X2_get_all_urls_lists_the_reachable_leaves
    (net : Network) (base_url : string) (urls : list string)
    (Hreturn : get_all_urls net base_url = Return urls) :
  ∃ start,
    find_sitemap net base_url = Some start ∧
    ∀ u, u ∈ urls
         ↔ ∃ sitemap_url root,
             reachable (sitemaps net) start sitemap_url ∧
             sitemaps net !! sitemap_url = Some root ∧
             find root "sitemapindex" = None ∧
             u ∈ locs root "url".
Proof.
  apply get_all_urls_Return in Hreturn as (start & st & Hfind & Hrun & ->).
  exists start. split; [done|]. intros u.
  rewrite sorted_elem_of, (parse_sitemap_run_all_urls _ _ _ Hrun).
  pose proof (parse_sitemap_recursive_log _ _ _ _ _ Hrun log_faithful_initial)
    as [_ Hlog].
  unfold leaf_entry. split.
  - intros (s & root & Hs & Hrest). exists s, root. split; [|done].
    eapply parse_sitemap_run_requests; [exact Hrun|]. by apply Hlog.
  - intros (s & root & Hs & Hrest). exists s, root. split; [|done].
    apply Hlog. by eapply parse_sitemap_run_requests.
Qed.

Lemma X2_get_all_urls_lists_the_reachable_leaves_witness :
  ∃ start,
    find_sitemap (Examples.serving Examples.unordered_document) "https://example.com"
    = Some start ∧
    ∀ u, u ∈ ["https://example.com/a"; "https://example.com/b"; "https://example.com/c"]
         ↔ ∃ sitemap_url root,
             reachable (sitemaps (Examples.serving Examples.unordered_document))
                       start sitemap_url ∧
             sitemaps (Examples.serving Examples.unordered_document) !! sitemap_url
             = Some root ∧
             find root "sitemapindex" = None ∧
             u ∈ locs root "url".
Proof.
  apply (X2_get_all_urls_lists_the_reachable_leaves
           (Examples.serving Examples.unordered_document) "https://example.com").
  vm_compute. reflexivity.
Defined.

(** ** Finding the sitemap *)

Section FirstReturn.

Context {A B : Type} (body : A → option B).

Lemma first_return_None l :
  first_return body l = None ↔ Forall (λ x, body x = None) l.
Proof.
  induction l as [|x l IH]; simpl; [by split; [constructor|]|].
  rewrite Forall_cons. destruct (body x) eqn:Hx; [|rewrite IH; tauto].
  split; [done|]. intros [? _]. done.
Qed.

Lemma first_return_Some l y :
  first_return body l = Some y
  ↔ ∃ before x after,
      l = before ++ x :: after ∧
      Forall (λ z, body z = None) before ∧
      body x = Some y.
Proof.
  split.
  - induction l as [|x l IH]; simpl; [done|].
    destruct (body x) as [y'|] eqn:Hx.
    + intros ?; simplify_eq. exists [], x, l. by repeat split.
    + intros (before & x' & after & -> & Hbefore & Hy)%IH.
      exists (x :: before), x', after. split; [done|]. split; [|done].
      by constructor.
  - intros (before & x & after & -> & Hbefore & Hy).
    induction Hbefore as [|z before Hz _ IH]; simpl.
    + by rewrite Hy.
    + by rewrite Hz.
Qed.

End FirstReturn.

Section Directive.

(** Lowering a character gives the colon for the colon only, and no letter
    of [sitemap] for it. *)
Lemma lower_char_colon (c : ascii) :
  Str.lower_char c = ":"%char → c = ":"%char.
Proof. destruct c as [[] [] [] [] [] [] [] []]; vm_compute; congruence. Qed.

Lemma lower_char_letter (c d : ascii) :
  Str.lower_char c = d → d ≠ ":"%char → c ≠ ":"%char.
Proof. intros <- Hd ->. by apply Hd. Qed.

Lemma append_String (c : ascii) (s t : string) :
  String c s +:+ t = String c (s +:+ t).
Proof. done. Qed.

Lemma prefix_String (a : ascii) (p s : string) :
  String.prefix (String a p) s = true
  ↔ ∃ s', s = String a s' ∧ String.prefix p s' = true.
Proof.
  destruct s as [|b s']; cbn [String.prefix].
  - split; [done|]. by intros (? & ? & _).
  - destruct (ascii_dec a b) as [->|Hne].
    + split; [by exists s'|]. intros (? & ? & ?). by simplify_eq.
    + split; [done|]. intros (? & ? & _). by simplify_eq.
Qed.

Lemma prefix_append (p s : string) : String.prefix p (p +:+ s) = true.
Proof.
  induction p as [|a p IH]; [by destruct s|].
  rewrite append_String. apply prefix_String. by exists (p +:+ s).
Qed.

Lemma lower_append (s t : string) :
  Str.lower (s +:+ t) = Str.lower s +:+ Str.lower t.
Proof.
  induction s as [|c s IH]; [done|].
  rewrite append_String. cbn [Str.lower]. by rewrite append_String, IH.
Qed.

Lemma lower_length (s : string) : String.length (Str.lower s) = String.length s.
Proof. induction s; simpl; congruence. Qed.

(** A line whose lower case starts with a word without colon and a colon
    is a directive, that word and colon in some case, followed by the
    rest, and the rest is what follows the first colon of the line. *)
Lemma directive_split (word : string) :
  Str.after_first ":" word = None →
  ∀ line,
    String.prefix (word +:+ ":") (Str.lower line) = true →
    ∃ directive rest,
      line = directive +:+ rest ∧
      Str.lower directive = word +:+ ":" ∧
      Str.after_first ":" line = Some rest.
Proof.
  induction word as [|a word IH]; intros Hword line Hline.
  - apply prefix_String in Hline as (s' & Hlower & _).
    destruct line as [|c rest]; [done|]. cbn [Str.lower] in Hlower.
    injection Hlower as Hc _. apply lower_char_colon in Hc as ->.
    exists ":", rest. split; [done|]. split; [done|].
    cbn [Str.after_first]. by rewrite decide_True.
  - cbn [Str.after_first] in Hword. case_decide as Ha; [done|].
    rewrite append_String in Hline.
    apply prefix_String in Hline as (s' & Hlower & Hrest).
    destruct line as [|c line]; [done|]. cbn [Str.lower] in Hlower.
    injection Hlower as Hc <-.
    destruct (IH Hword line Hrest) as (directive & rest & -> & Hdirective & Hafter).
    exists (String c directive), rest. split; [done|]. split.
    + cbn [Str.lower]. by rewrite Hdirective, Hc, append_String.
    + cbn [Str.after_first]. rewrite decide_False; [done|].
      eapply lower_char_letter; [exact Hc|done].
Qed.

(** A line that passes the test [line.lower().startswith('sitemap:')] is
    a directive of 8 characters followed by the rest, and
    [line.split(':', 1)[1]] is that rest: the colon of the directive is
    the first one of the line. *)
Lemma sitemap_directive_split (line : string) :
  Str.startswith (Str.lower line) "sitemap:" = true →
  ∃ directive rest,
    line = directive +:+ rest ∧
    Str.lower directive = "sitemap:" ∧
    Str.after_first ":" line = Some rest.
Proof. intros Hline. by apply (directive_split "sitemap"). Qed.

Lemma sitemap_directive_startswith (directive rest : string) :
  Str.lower directive = "sitemap:" →
  Str.startswith (Str.lower (directive +:+ rest)) "sitemap:" = true.
Proof.
  intros Hlower. unfold Str.startswith.
  rewrite lower_append, Hlower. apply prefix_append.
Qed.

Lemma probe_path_Some (net : Network) (base_url path u : string) :
  probe_path net base_url path = Some u
  ↔ qualifies net (urljoin net base_url path) u.
Proof.
  unfold probe_path, qualifies.
  destruct (session_head net true (urljoin net base_url path)) as [r|]; simpl.
  - case_decide as Hstatus.
    + destruct (Str.contains "xml" _) eqn:Hxml.
      * split; [intros ?; simplify_eq; by exists r|].
        intros (r' & ? & _ & _ & ->). by simplify_eq.
      * split; [done|]. intros (r' & ? & _ & Hxml' & _). simplify_eq. congruence.
    + split; [done|]. intros (r' & ? & ? & _). by simplify_eq.
  - split; [done|]. by intros (r' & ? & _).
Qed.

(** What [robots_line] accepts. *)
Lemma robots_line_Some
    (net : Network) (line sitemap_url : string) :
  robots_line net line = Some sitemap_url
  ↔ declares line sitemap_url ∧ answers net sitemap_url.
Proof.
  unfold robots_line, declares, answers. split.
  - destruct (Str.startswith _ _) eqn:Hstart; [|done].
    destruct (sitemap_directive_split _ Hstart) as (directive & rest & Hline & Hlower & ->).
    destruct (session_head net false (Str.strip rest)) as [r|] eqn:Hhead; [|done].
    case_decide; [|done]. intros ?; simplify_eq.
    split; [by exists directive, rest|by exists r].
  - intros [(directive & rest & Hline & Hlower & ->) (r & Hhead & Hstatus)].
    rewrite Hline, (sitemap_directive_startswith _ _ Hlower).
    destruct (sitemap_directive_split (directive +:+ rest)
                (sitemap_directive_startswith _ _ Hlower))
      as (directive' & rest' & Heq & Hlower' & ->).
    assert (rest' = rest) as ->.
    { assert (String.length directive' = String.length directive) as Hlen.
      { by rewrite <- (lower_length directive'), <- (lower_length directive),
          Hlower, Hlower'. }
      clear -Heq Hlen. revert directive' Heq Hlen.
      induction directive as [|c d IH]; intros [|c' d'] Heq Hlen;
        simplify_eq/=; [done|]. by eapply IH. }
    by rewrite Hhead, decide_True.
Qed.

(** X3. A line of robots.txt yields a sitemap URL exactly when, white
    space around it apart, it starts with [sitemap:] in any case, the URL
    is what follows that first colon, stripped, and a [HEAD] request to the
    URL is answered with status 200; colons of the URL itself are kept,
    and the content type of the answer is not looked at. *)
Theorem X3_robots_line_accepts_declared_sitemaps
    (net : Network) (line sitemap_url : string) :
  robots_line net line = Some sitemap_url
  ↔ declares line sitemap_url ∧ answers net sitemap_url.
Proof. apply robots_line_Some. Qed.

End Directive.

Section FindSitemap.

Variables (net : Network) (base_url : string).

Lemma find_sitemap_Some (u : string) :
  find_sitemap net base_url = Some u
  ↔ (∃ before path after,
       sitemap_paths = before ++ path :: after ∧
       Forall (λ p, probe_path net base_url p = None) before ∧
       probe_path net base_url path = Some u)
    ∨ (Forall (λ p, probe_path net base_url p = None) sitemap_paths ∧
       ∃ robots,
         session_get net (urljoin net base_url "/robots.txt") = Some robots ∧
         status_code robots = 200%Z ∧
         first_return (robots_line net) (Str.split "010" (response_text robots))
         = Some u).
Proof.
  unfold find_sitemap.
  destruct (first_return (probe_path net base_url) sitemap_paths) as [v|] eqn:Hprobe.
  - pose proof Hprobe as Hnot. apply first_return_Some in Hprobe.
    split.
    + intros ?; simplify_eq. by left.
    + intros [Hfound|[Hnone _]].
      * apply first_return_Some in Hfound. congruence.
      * apply first_return_None in Hnone. congruence.
  - split.
    + intros Hrobots. right. split; [by apply first_return_None|].
      destruct (session_get net _) as [robots|]; [|done].
      case_decide; [|done]. by exists robots.
    + intros [Hfound|[_ (robots & -> & Hstatus & Hline)]].
      * apply first_return_Some in Hfound. congruence.
      * by rewrite decide_True.
Qed.

(** X4. The conventional paths are tried in their order and the first
    that qualifies wins: its final URL after redirects is returned,
    whatever robots.txt says, and a path whose request raises, is answered
    with another status than 200 or with a content type that does not
    mention xml, is passed over. *)
Theorem X4_first_qualifying_path_wins
    (before : list string) (path : string) (after : list string) (u : string)
    (Hpaths : sitemap_paths = before ++ path :: after)
    (Hbefore : ∀ p v, p ∈ before → ¬ qualifies net (urljoin net base_url p) v)
    (Hpath : qualifies net (urljoin net base_url path) u) :
  find_sitemap net base_url = Some u.
Proof.
  apply find_sitemap_Some. left. exists before, path, after.
  split; [done|]. split; [|by apply probe_path_Some].
  apply Forall_forall. intros p Hp.
  destruct (probe_path net base_url p) as [v|] eqn:Hprobe; [|done].
  apply probe_path_Some in Hprobe. by destruct (Hbefore p v Hp).
Qed.

(** X5. Whatever [find_sitemap] returns was checked by a [HEAD] request
    answered with status 200: it is the final URL of a conventional path
    that qualifies, or else, no conventional path qualifying, robots.txt
    was served with status 200 and one of its lines declares the URL,
    which answers. *)
Theorem X5_found_sitemap_was_checked
    (u : string) (Hfound : find_sitemap net base_url = Some u) :
  (∃ path, path ∈ sitemap_paths ∧ qualifies net (urljoin net base_url path) u)
  ∨ ((∀ path v, path ∈ sitemap_paths →
        ¬ qualifies net (urljoin net base_url path) v) ∧
     ∃ robots line,
       session_get net (urljoin net base_url "/robots.txt") = Some robots ∧
       status_code robots = 200%Z ∧
       line ∈ Str.split "010" (response_text robots) ∧
       declares line u ∧
       answers net u).
Proof.
  apply find_sitemap_Some in Hfound
    as [(before & path & after & Hpaths & _ & Hprobe)
       |(Hnone & robots & Hget & Hstatus & Hline)].
  - left. exists path. split; [|by apply probe_path_Some].
    rewrite Hpaths. apply elem_of_app. right. apply list_elem_of_here.
  - right. split.
    + intros path v Hpath Hq. apply probe_path_Some in Hq.
      rewrite Forall_forall in Hnone. rewrite (Hnone path Hpath) in Hq. done.
    + apply first_return_Some in Hline as (l1 & line & l2 & Hsplit & _ & Hline).
      apply robots_line_Some in Hline as [Hdeclares Hanswers].
      exists robots, line. split_and!; try done.
      rewrite Hsplit. apply elem_of_app. right. apply list_elem_of_here.
Qed.

(** X6. When no [HEAD] request is answered with status 200, no sitemap is
    found, whatever robots.txt lists, and [get_all_urls] raises the
    [ValueError]. *)
Theorem X6_no_sitemap_without_status_200
    (Hno : ∀ follow url response,
       session_head net follow url = Some response → status_code response ≠ 200%Z) :
  find_sitemap net base_url = None ∧
  get_all_urls net base_url = Raise "ValueError" (no_sitemap_message base_url).
Proof.
  assert (find_sitemap net base_url = None) as Hnone.
  { destruct (find_sitemap net base_url) as [u|] eqn:Hfound; [|done].
    apply find_sitemap_Some in Hfound
      as [(before & path & after & _ & _ & Hprobe)
         |(_ & robots & _ & _ & Hline)].
    - apply probe_path_Some in Hprobe as (r & Hhead & Hstatus & _).
      by destruct (Hno _ _ _ Hhead).
    - apply first_return_Some in Hline as (_ & line & _ & _ & _ & Hline).
      apply robots_line_Some in Hline as [_ (r & Hhead & Hstatus)].
      by destruct (Hno _ _ _ Hhead). }
  split; [done|]. unfold get_all_urls. by rewrite Hnone.
Qed.

End FindSitemap.

Lemma X4_first_qualifying_path_wins_witness :
  find_sitemap redirecting "https://example.com"
  = Some "https://www.example.com/sitemaps/main.xml".
Proof.
  apply (X4_first_qualifying_path_wins redirecting "https://example.com"
           ["/sitemap.xml"] "/sitemap_index.xml" ["/sitemap1.xml"]).
  - reflexivity.
  - intros p v ->%list_elem_of_singleton (r & Hhead & _). simpl in Hhead. done.
  - eexists. split; [reflexivity|]. simpl. by repeat split.
Defined.

Lemma X5_found_sitemap_was_checked_witness :
  (∃ path, path ∈ sitemap_paths ∧
     qualifies Examples.with_robots
       (urljoin Examples.with_robots "https://example.com" path)
       "https://example.com/custom.xml")
  ∨ ((∀ path v, path ∈ sitemap_paths →
        ¬ qualifies Examples.with_robots
            (urljoin Examples.with_robots "https://example.com" path) v) ∧
     ∃ robots line,
       session_get Examples.with_robots
         (urljoin Examples.with_robots "https://example.com" "/robots.txt")
       = Some robots ∧
       status_code robots = 200%Z ∧
       line ∈ Str.split "010" (response_text robots) ∧
       declares line "https://example.com/custom.xml" ∧
       answers Examples.with_robots "https://example.com/custom.xml").
Proof.
  apply (X5_found_sitemap_was_checked Examples.with_robots "https://example.com").
  vm_compute. reflexivity.
Defined.

Lemma X6_no_sitemap_without_status_200_witness :
  find_sitemap Examples.unreachable "https://example.com" = None ∧
  get_all_urls Examples.unreachable "https://example.com"
  = Raise "ValueError" (no_sitemap_message "https://example.com").
Proof.
  apply (X6_no_sitemap_without_status_200 Examples.unreachable "https://example.com").
  intros follow url response Hhead. simpl in Hhead. discriminate.
Defined.

(** ** The order and the stability of the duplicates *)

Section DuplicatesOrder.

Implicit Types (counter : list (string * nat)) (key k : string).

Lemma filter_ext_elem {A : Type} (P Q : A → Prop)
    `{!∀ x, Decision (P x), !∀ x, Decision (Q x)} (l : list A) :
  (∀ x, x ∈ l → P x ↔ Q x) → filter P l = filter Q l.
Proof.
  induction l as [|x l IH]; intros Hext; [done|].
  rewrite !filter_cons, IH by (intros y Hy; apply Hext; by apply list_elem_of_further).
  pose proof (Hext x (list_elem_of_here _ _)).
  repeat case_decide; tauto.
Qed.

Lemma first_occurrences_elem_of (values : list string) v :
  v ∈ first_occurrences values ↔ v ∈ values.
Proof.
  induction values as [|w values IH]; simpl; [done|].
  rewrite !elem_of_cons, list_elem_of_filter, IH.
  destruct (decide (v = w)); tauto.
Qed.

Lemma first_occurrences_NoDup (values : list string) : NoDup (first_occurrences values).
Proof.
  induction values as [|w values IH]; simpl; [constructor|].
  apply NoDup_cons. split; [|by apply NoDup_filter].
  rewrite list_elem_of_filter. tauto.
Qed.

Lemma counter_add_keys_list key counter :
  (counter_add key counter).*1
  = if decide (key ∈ counter.*1) then counter.*1 else counter.*1 ++ [key].
Proof.
  induction counter as [|[k n] rest IH]; [done|].
  cbn [counter_add]. destruct (decide (k = key)) as [->|Hne].
  - rewrite !fmap_cons. cbn [fst].
    by rewrite decide_True by apply list_elem_of_here.
  - rewrite !fmap_cons, IH. cbn [fst].
    destruct (decide (key ∈ rest.*1)) as [Hin|Hout].
    + by rewrite decide_True by by apply list_elem_of_further.
    + rewrite decide_False; [done|].
      intros [?|?]%elem_of_cons; [by subst|done].
Qed.

Lemma Counter_keys_foldl values counter :
  (foldl (λ c key, counter_add key c) counter values).*1
  = counter.*1 ++ filter (λ v, v ∉ counter.*1) (first_occurrences values).
Proof.
  revert counter. induction values as [|v values IH]; intros counter; simpl.
  - by rewrite app_nil_r.
  - rewrite IH, counter_add_keys_list, filter_cons, list_filter_filter.
    destruct (decide (v ∈ counter.*1)) as [Hin|Hout].
    + rewrite decide_False by tauto. f_equal.
      apply list_filter_iff. intros w. split; [|tauto].
      intros Hw. split; [done|]. by intros ->.
    + rewrite decide_True by done. rewrite <- app_assoc. simpl. do 2 f_equal.
      apply list_filter_iff. intros w.
      rewrite elem_of_app, list_elem_of_singleton. tauto.
Qed.

(** The keys of a [Counter] are the distinct values counted, in the order
    of their first occurrence. *)
Lemma Counter_keys values : (Counter values).*1 = first_occurrences values.
Proof.
  unfold Counter. rewrite Counter_keys_foldl. cbn [fmap list_fmap app].
  induction (first_occurrences values) as [|w l IH]; [done|].
  rewrite filter_cons, decide_True by apply not_elem_of_nil. by rewrite IH.
Qed.

Lemma more_than_once_keys counter :
  counter_wf counter →
  more_than_once counter = filter (λ k, 1 < counter_get k counter) counter.*1.
Proof.
  unfold more_than_once. intros [Hnd _].
  induction counter as [|[k n] rest IH]; [reflexivity|].
  rewrite fmap_cons in Hnd. apply NoDup_cons in Hnd as [Hk Hnd]. cbn [fst] in Hk.
  rewrite fmap_cons, !filter_cons. cbn [fst snd counter_get].
  rewrite (decide_True (P := k = k)) by done.
  assert (filter (λ k', 1 < (if decide (k = k') then n else counter_get k' rest))
                 rest.*1
          = filter (λ k', 1 < counter_get k' rest) rest.*1) as ->.
  { apply filter_ext_elem. intros k' Hk'. rewrite decide_False; [done|].
    by intros ->. }
  rewrite <- (IH Hnd). by case_decide.
Qed.

Lemma truthy_values_nonempty field results v :
  v ∈ truthy_values field results → v ≠ "".
Proof.
  intros Hin ->. pose proof (truthy_values_count field "" results) as Hcount.
  rewrite decide_True in Hcount by done.
  assert ("" ∈ filter (λ v, v = "") (truthy_values field results)) as Hfilter
    by by apply list_elem_of_filter.
  destruct (filter _ _); [by apply elem_of_nil in Hfilter|done].
Qed.

(** The duplicates of a field: the distinct truthy values in the order of
    their first occurrence, those carried once left out. *)
Lemma more_than_once_truthy_values field results :
  more_than_once (Counter (truthy_values field results))
  = filter (λ v, 1 < occurrences field v results)
           (first_occurrences (truthy_values field results)).
Proof.
  rewrite more_than_once_keys by apply Counter_wf. rewrite Counter_keys.
  apply filter_ext_elem. intros v Hv%first_occurrences_elem_of%truthy_values_nonempty.
  by rewrite Counter_get, truthy_values_count, decide_False.
Qed.

(** X7. The duplicates are listed in the order in which they first occur
    in the results: [detect_duplicates] returns the distinct non-empty
    titles, and descriptions, in that order, those of a single result left
    out. *)
Theorem X7_duplicates_in_order_of_first_occurrence (results : list PageResult) :
  detect_duplicates results
  = (filter (λ t, 1 < occurrences title t results)
            (first_occurrences (truthy_values title results)),
     filter (λ d, 1 < occurrences meta_description d results)
            (first_occurrences (truthy_values meta_description results))).
Proof.
  unfold detect_duplicates. rewrite collected_truthy_values.
  by rewrite !more_than_once_truthy_values.
Qed.

End DuplicatesOrder.

(** ** The link validation stage *)

Section LinkStage.

Implicit Types (r result : PageResult) (lv : LinkValidation) (c : Collaborators).

Lemma record_link_validation_frame lv r :
  same_page_fields r (record_link_validation lv r) ∧
  issues r `prefix_of` issues (record_link_validation lv r) ∧
  length (issues (record_link_validation lv r)) ≤ S (length (issues r)).
Proof.
  unfold record_link_validation, warn_if_ok.
  repeat (case_decide; simpl); rewrite ?length_app; simpl;
    (split; [by repeat split|]); (split; [|lia]);
    done || by apply prefix_app_r.
Qed.

Lemma validate_result_frame c r :
  same_page_fields r (validate_result c r).1 ∧
  issues r `prefix_of` issues (validate_result c r).1 ∧
  length (issues (validate_result c r).1) ≤ S (length (issues r)).
Proof.
  unfold validate_result.
  destruct (Str.truthy (error r)); simpl; [by repeat split; try lia|].
  destruct (fetch_page c (url r)); simpl; [|by repeat split; try lia].
  apply record_link_validation_frame.
Qed.

(** What the link validation stage keeps. *)
Lemma link_validation_stage_frame
    (c : Collaborators) (skip_links : bool) (results : list PageResult) :
  Forall2
    (λ r r',
       same_page_fields r r' ∧
       issues r `prefix_of` issues r' ∧
       length (issues r') ≤ S (length (issues r)))
    results (link_validation_stage c skip_links results).1.
Proof.
  unfold link_validation_stage. destruct skip_links; simpl.
  - apply Forall2_fmap_r, Forall_Forall2_diag, Forall_forall.
    intros r _. simpl. by repeat split; try lia.
  - pose proof (for_results_Forall2
                  (λ r r', same_page_fields r r' ∧
                           issues r `prefix_of` issues r' ∧
                           length (issues r') ≤ S (length (issues r)))
                  (validate_result c) results (validate_result_frame c)) as H.
    by destruct (for_results (validate_result c) results).
Qed.

(** X8. The link validation stage, enabled or skipped, changes of a result
    only the two broken-link fields, the issues, by appending at most one,
    and the status: the URL, the title, the description, the other
    attributes and the error stay, for every result, in the same order. *)
Theorem X8_link_validation_stage_frame
    (c : Collaborators) (skip_links : bool) (results : list PageResult) :
  Forall2
    (λ r r',
       same_page_fields r r' ∧
       issues r `prefix_of` issues r' ∧
       length (issues r') ≤ S (length (issues r)))
    results (link_validation_stage c skip_links results).1.
Proof. apply link_validation_stage_frame. Qed.

Lemma link_validation_stage_same_fields c skip_links results :
  Forall2 (λ r r', title r' = title r ∧ meta_description r' = meta_description r)
          results (link_validation_stage c skip_links results).1.
Proof.
  eapply Forall2_impl; [apply link_validation_stage_frame|].
  intros r r' ((_ & ? & ? & _) & _). done.
Qed.

End LinkStage.

(** ** Duplicate detection within the pipeline *)

Section DuplicateStage.

Implicit Types (r result : PageResult) (c : Collaborators).

Lemma truthy_values_Forall2 (field : PageResult → option string)
    (results results' : list PageResult) :
  Forall2 (λ r r', field r' = field r) results results' →
  truthy_values field results' = truthy_values field results.
Proof.
  induction 1 as [|r r' rs rs' Hr _ IH]; [done|].
  by rewrite !truthy_values_cons, Hr, IH.
Qed.

(** [detect_duplicates] reads the titles and the descriptions only. *)
Lemma detect_duplicates_Forall2 (results results' : list PageResult) :
  Forall2 (λ r r', title r' = title r ∧ meta_description r' = meta_description r)
          results results' →
  detect_duplicates results' = detect_duplicates results.
Proof.
  intros Hsame. unfold detect_duplicates. rewrite !collected_truthy_values.
  rewrite (truthy_values_Forall2 title results results'),
    (truthy_values_Forall2 meta_description results results'); [done|..];
    eapply Forall2_impl; [exact Hsame| |exact Hsame|]; by intros ?? [? ?].
Qed.

Lemma add_duplicate_warnings_same_fields results dt dd :
  Forall2 (λ r r', title r' = title r ∧ meta_description r' = meta_description r)
          results (add_duplicate_warnings results dt dd).
Proof.
  unfold add_duplicate_warnings.
  apply Forall2_fmap_r, Forall_Forall2_diag, Forall_forall. intros r _.
  by destruct (add_duplicate_warning_frame dt dd r) as (_ & ? & ? & _).
Qed.

(** X9. The duplicates do not depend on the link validation nor on the
    warnings: [detect_duplicates] gives the same two lists on the results
    as the link validation stage leaves them, enabled or skipped, and on
    the results as [add_duplicate_warnings] leaves them, as on the results
    it is given. *)
Theorem X9_duplicates_stable_under_the_stages
    (c : Collaborators) (skip_links : bool) (results : list PageResult)
    (duplicate_titles duplicate_descriptions : list string) :
  detect_duplicates (link_validation_stage c skip_links results).1
  = detect_duplicates results ∧
  detect_duplicates
    (add_duplicate_warnings results duplicate_titles duplicate_descriptions)
  = detect_duplicates results.
Proof.
  split; apply detect_duplicates_Forall2.
  - apply link_validation_stage_same_fields.
  - apply add_duplicate_warnings_same_fields.
Qed.

(** Membership in the two lists of [detect_duplicates]. *)
Lemma detect_duplicates_elem_of (results : list PageResult) :
  (∀ t, t ∈ (detect_duplicates results).1
        ↔ t ≠ "" ∧ 1 < occurrences title t results) ∧
  (∀ d, d ∈ (detect_duplicates results).2
        ↔ d ≠ "" ∧ 1 < occurrences meta_description d results).
Proof.
  unfold detect_duplicates. rewrite collected_truthy_values. simpl.
  assert (∀ field v,
            v ∈ more_than_once (Counter (truthy_values field results))
            ↔ v ≠ "" ∧ 1 < occurrences field v results) as Hdup.
  { intros field v. rewrite more_than_once_elem_of by apply Counter_wf.
    rewrite Counter_get, truthy_values_count.
    case_decide; [split; [lia|by intros [? _]]|tauto]. }
  split; intros v; apply Hdup.
Qed.

Lemma add_duplicate_warning_title dt dd r t :
  title r = Some t → t ∈ dt →
  duplicate_title_issue t ∈ issues (add_duplicate_warning dt dd r) ∧
  status_le Warning (status (add_duplicate_warning dt dd r)).
Proof.
  intros Ht Hin. unfold add_duplicate_warning. rewrite Ht. simpl.
  rewrite bool_decide_eq_true_2 by done.
  set (r1 := warn_if_ok (append_issue (duplicate_title_issue t) r)).
  assert (duplicate_title_issue t ∈ issues r1) as Hissue.
  { subst r1. rewrite warn_if_ok_issues. simpl.
    apply elem_of_app. right. apply list_elem_of_here. }
  assert (status_le Warning (status r1)) as Hstatus
    by apply warn_if_ok_at_least_warning.
  destruct (is_in (meta_description r) dd); [|done]. split.
  - rewrite warn_if_ok_issues. simpl. apply elem_of_app. by left.
  - etrans; [exact Hstatus|]. apply warn_then_status.
Qed.

Lemma add_duplicate_warning_description dt dd r d :
  meta_description r = Some d → d ∈ dd →
  duplicate_description_issue d ∈ issues (add_duplicate_warning dt dd r) ∧
  status_le Warning (status (add_duplicate_warning dt dd r)).
Proof.
  intros Hd Hin. unfold add_duplicate_warning. rewrite Hd. simpl.
  rewrite (bool_decide_eq_true_2 (d ∈ dd)) by done. split.
  - rewrite warn_if_ok_issues. simpl. apply elem_of_app. right.
    apply list_elem_of_here.
  - apply warn_if_ok_at_least_warning.
Qed.

(** X10. Step 4 of [main] as a whole: a result whose non-empty title, or
    description, is carried by more than one result gets the issue that
    quotes it and a status of at least [warning]; a result whose title and
    description are each empty, missing or carried by no other result is
    left as it is. *)
Theorem X10_duplicate_stage_warns_the_duplicated
    (results : list PageResult) (i : nat) (r : PageResult)
    (Hlookup : results !! i = Some r) :
  ∃ r',
    (duplicate_stage results).1.1 !! i = Some r' ∧
    (∀ t, title r = Some t → t ≠ "" → 1 < occurrences title t results →
       duplicate_title_issue t ∈ issues r' ∧ status_le Warning (status r')) ∧
    (∀ d, meta_description r = Some d → d ≠ "" →
       1 < occurrences meta_description d results →
       duplicate_description_issue d ∈ issues r' ∧ status_le Warning (status r')) ∧
    ((∀ t, title r = Some t → t ≠ "" → occurrences title t results ≤ 1) →
     (∀ d, meta_description r = Some d → d ≠ "" →
        occurrences meta_description d results ≤ 1) →
     r' = r).
Proof.
  destruct (detect_duplicates_elem_of results) as [Htitles Hdescriptions].
  unfold duplicate_stage.
  destruct (detect_duplicates results) as [dt dd]. simpl in *.
  exists (add_duplicate_warning dt dd r). split_and!.
  - unfold add_duplicate_warnings. by rewrite list_lookup_fmap, Hlookup.
  - intros t Ht Hne Hmany. apply add_duplicate_warning_title; [done|].
    by apply Htitles.
  - intros d Hd Hne Hmany. apply add_duplicate_warning_description; [done|].
    by apply Hdescriptions.
  - intros Ht Hd. apply add_duplicate_warning_outside; apply is_in_false.
    + intros t Htitle [Hne Hmany]%Htitles. specialize (Ht t Htitle Hne). lia.
    + intros d Hdesc [Hne Hmany]%Hdescriptions. specialize (Hd d Hdesc Hne). lia.
Qed.

End DuplicateStage.

Lemma X10_duplicate_stage_warns_the_duplicated_witness :
  ∃ r',
    (duplicate_stage
       [Examples.page "https://example.com/" "Home" "Welcome";
        Examples.failed_page "https://example.com/down";
        Examples.page "https://example.com/about" "Home" "About us"]).1.1 !! 2
    = Some r' ∧
    duplicate_title_issue "Home" ∈ issues r' ∧
    status_le Warning (status r').
Proof.
  destruct (X10_duplicate_stage_warns_the_duplicated
              [Examples.page "https://example.com/" "Home" "Welcome";
               Examples.failed_page "https://example.com/down";
               Examples.page "https://example.com/about" "Home" "About us"]
              2 (Examples.page "https://example.com/about" "Home" "About us")
              eq_refl) as (r' & Hr' & Htitle & _).
  exists r'. split; [exact Hr'|].
  apply (Htitle "Home" eq_refl); [discriminate|vm_compute; lia].
Defined.

(** ** What the link validation does to a result, and what it requests *)

Section LinkStageEffect.

Implicit Types (r result : PageResult) (lv : LinkValidation) (c : Collaborators).

Lemma validate_result_unchecked c r :
  broken_count c r = None → validate_result c r = (r, (validate_result c r).2).
Proof.
  unfold broken_count, validate_result.
  destruct (Str.truthy (error r)); [done|].
  by destruct (fetch_page c (url r)).
Qed.

Lemma validate_result_checked c r n :
  broken_count c r = Some n →
  ∃ lv, total_broken lv = n ∧ (validate_result c r).1 = record_link_validation lv r.
Proof.
  unfold broken_count, validate_result.
  destruct (Str.truthy (error r)); [done|].
  destruct (fetch_page c (url r)) as [html|]; [|done]. simpl.
  intros ?; simplify_eq. by eexists.
Qed.

Lemma record_link_validation_status_after lv r :
  status (record_link_validation lv r)
  = if decide (5 < total_broken lv)%Z then Error
    else if decide (0 < total_broken lv)%Z
         then (if decide (status r = Ok) then Warning else status r)
         else status r.
Proof.
  unfold record_link_validation, warn_if_ok.
  repeat (case_decide; simpl); done || lia.
Qed.

Lemma record_link_validation_issues_after lv r :
  issues (record_link_validation lv r)
  = if decide (0 < total_broken lv)%Z
    then issues r ++ [broken_links_issue (total_broken lv)]
    else issues r.
Proof.
  unfold record_link_validation, warn_if_ok.
  repeat (case_decide; simpl); done || lia.
Qed.

Lemma record_link_validation_effect lv r :
  let r' := record_link_validation lv r in
  (status r' = Error ↔ status r = Error ∨ (5 < total_broken lv)%Z) ∧
  (status r' = Ok ↔ status r = Ok ∧ (total_broken lv ≤ 0)%Z) ∧
  (issues r' = issues r ↔ (total_broken lv ≤ 0)%Z).
Proof.
  intros r'. subst r'.
  rewrite record_link_validation_status_after, record_link_validation_issues_after.
  assert (∀ x : string, issues r ++ [x] ≠ issues r) as Hgrow.
  { intros x Heq. apply (f_equal length) in Heq. rewrite length_app in Heq.
    simpl in Heq. lia. }
  split_and!.
  - repeat case_decide; destruct (status r);
      intuition (try discriminate; try congruence; try lia).
  - repeat case_decide; destruct (status r);
      intuition (try discriminate; try congruence; try lia).
  - case_decide; [|split; [lia|done]].
    split; [intros H'; by destruct (Hgrow _ H')|lia].
Qed.

(** X11. What the link validation makes of the status and the issues of a
    result depends on the count of broken targets alone: the status is
    [error] afterwards exactly when it was before or the count is above 5;
    it is [ok] afterwards exactly when it was before and no count above 0
    was obtained; and the issues stay as they are exactly when no count
    above 0 was obtained.  A result with an error, or whose page cannot be
    fetched again, has no count and is left as it is. *)
Theorem X11_link_validation_by_count (c : Collaborators) (r : PageResult) :
  let r' := (validate_result c r).1 in
  (status r' = Error
   ↔ status r = Error ∨ ∃ n, broken_count c r = Some n ∧ (5 < n)%Z) ∧
  (status r' = Ok
   ↔ status r = Ok ∧ ∀ n, broken_count c r = Some n → (n ≤ 0)%Z) ∧
  (issues r' = issues r ↔ ∀ n, broken_count c r = Some n → (n ≤ 0)%Z) ∧
  (broken_count c r = None → r' = r).
Proof.
  intros r'. subst r'.
  destruct (broken_count c r) as [n|] eqn:Hcount.
  - destruct (validate_result_checked c r n Hcount) as (lv & <- & ->).
    destruct (record_link_validation_effect lv r) as (Herror & Hok & Hissues).
    split_and!; [| | |done].
    + rewrite Herror. split; intros [?|?]; auto.
      * right. by eexists.
      * right. destruct H as (n & ? & ?). by simplify_eq.
    + rewrite Hok. split; intros [? Hn]; (split; [done|]).
      * intros n ?. by simplify_eq.
      * by apply Hn.
    + rewrite Hissues. split; [intros ? n ?; by simplify_eq|]. intros Hn. by apply Hn.
  - rewrite (validate_result_unchecked c r Hcount). simpl.
    split_and!; [| | |done].
    + split; [by left|]. intros [?|(n & ? & _)]; done.
    + split; [done|]. by intros [? _].
    + done.
Qed.

Lemma fetched_app (l1 l2 : list Event) : fetched (l1 ++ l2) = fetched l1 ++ fetched l2.
Proof. apply omap_app. Qed.

Lemma validated_app (l1 l2 : list Event) :
  validated (l1 ++ l2) = validated l1 ++ validated l2.
Proof. apply omap_app. Qed.

Lemma validate_result_requests c r :
  fetched (validate_result c r).2
  = (if decide (Str.truthy (error r) = false) then [url r] else []) ∧
  validated (validate_result c r).2
  = (if decide (Str.truthy (error r) = false ∧ is_Some (fetch_page c (url r)))
     then [url r] else []) ∧
  NewLinkValidator ∉ (validate_result c r).2.
Proof.
  unfold validate_result.
  destruct (Str.truthy (error r)) eqn:Herror.
  - rewrite (decide_False (P := true = false)) by done.
    rewrite decide_False by (by intros [? _]).
    split_and!; [done..|]. apply not_elem_of_nil.
  - rewrite (decide_True (P := false = false)) by done.
    destruct (fetch_page c (url r)) as [html|] eqn:Hfetch.
    + rewrite decide_True by (split; [done|by eexists]).
      split_and!; [done..|].
      intros [?|[?|[]%elem_of_nil]%elem_of_cons]%elem_of_cons; done.
    + rewrite decide_False by (intros [_ [? ?]]; done).
      split_and!; [done..|].
      intros [?|[]%elem_of_nil]%elem_of_cons; done.
Qed.

Lemma validate_results_requests c (results : list PageResult) :
  let log := (for_results (validate_result c) results).2 in
  fetched log = url <$> filter (λ r, Str.truthy (error r) = false) results ∧
  validated log
  = url <$> filter (λ r, Str.truthy (error r) = false ∧
                         is_Some (fetch_page c (url r))) results ∧
  NewLinkValidator ∉ log.
Proof.
  induction results as [|r results IH].
  - split_and!; [done..|]. apply not_elem_of_nil.
  - destruct IH as (Hfetched & Hvalidated & Hnew).
    destruct (validate_result_requests c r) as (Hfetched1 & Hvalidated1 & Hnew1).
    cbn [for_results].
    destruct (validate_result c r) as [r' log1].
    destruct (for_results (validate_result c) results) as [results' log2].
    cbn [fst snd] in *.
    rewrite fetched_app, validated_app, Hfetched, Hvalidated, Hfetched1,
      Hvalidated1, !filter_cons.
    split_and!.
    + destruct (decide (Str.truthy (error r) = false)); reflexivity.
    + destruct (decide (Str.truthy (error r) = false ∧
                        is_Some (fetch_page c (url r)))); reflexivity.
    + intros [?|?]%elem_of_app; done.
Qed.

(** X12. With the link validation enabled, one validator is constructed,
    first; every result without an error has its page fetched again, once
    and in the order of the results, and no other page is fetched; and the
    links are validated of exactly the pages that could be fetched
    again. *)
Theorem X12_link_validation_requests
    (c : Collaborators) (results : list PageResult) :
  let log := (link_validation_stage c false results).2 in
  (∃ rest, log = NewLinkValidator :: rest ∧ NewLinkValidator ∉ rest) ∧
  fetched log = url <$> filter (λ r, Str.truthy (error r) = false) results ∧
  validated log
  = url <$> filter (λ r, Str.truthy (error r) = false ∧
                         is_Some (fetch_page c (url r))) results.
Proof.
  unfold link_validation_stage. simpl.
  destruct (validate_results_requests c results) as (Hfetched & Hvalidated & Hnew).
  destruct (for_results (validate_result c) results) as [results' log].
  simpl in *. split_and!; [by eexists|done..].
Qed.

End LinkStageEffect.

(** ** The run of [main] *)

Section MainRun.

Variables (net : Network) (c : Collaborators) (args : Args).

(** The fuel of the embedding never runs out in [get_all_urls]. *)
Lemma get_all_urls_returns_or_raises (base_url : string) :
  get_all_urls net base_url ≠ OutOfFuel.
Proof.
  unfold get_all_urls, parse_sitemap.
  destruct (Str.truthy (find_sitemap net base_url)); [|done].
  by destruct (parse_sitemap_run_total (sitemaps net)
                 (default "" (find_sitemap net base_url))) as [st ->].
Qed.

Lemma main_outcome :
  (has_scheme args = false ∧
   main net c args = Exit 1 "Chyba: URL musí začínat http:// nebo https://")
  ∨ (has_scheme args = true ∧
     ∃ exception message,
       get_all_urls net (base_url_of args) = Raise exception message ∧
       main net c args = Exit 1 (String "010"%char "Chyba: " +:+ message))
  ∨ (has_scheme args = true ∧
     get_all_urls net (base_url_of args) = Return [] ∧
     main net c args = Exit 1 "Chyba: V sitemapě nebyly nalezeny žádné URL")
  ∨ (has_scheme args = true ∧
     ∃ urls,
       urls ≠ [] ∧
       get_all_urls net (base_url_of args) = Return urls ∧
       main net c args = analyse c args (apply_limit (args_limit args) urls)).
Proof.
  pose proof (get_all_urls_returns_or_raises (base_url_of args)) as Hfuel.
  unfold main, has_scheme, base_url_of in *.
  destruct (Str.startswith _ "http://" || Str.startswith _ "https://");
    simpl; [|by left].
  right.
  destruct (get_all_urls net _) as [[|u urls]|exception message|]; [| | |done].
  - right. by left.
  - right. right. split; [done|]. by exists (u :: urls).
  - left. split; [done|]. by exists exception, message.
Qed.


Lemma omap_all_None {A B : Type} (g : A → option B) (l : list A) :
  Forall (λ x, g x = None) l → omap g l = [].
Proof. induction 1 as [|x l Hx _ IH]; [done|]. csimpl. by rewrite Hx. Qed.

Lemma scraped_app (l1 l2 : list Event) : scraped (l1 ++ l2) = scraped l1 ++ scraped l2.
Proof. apply omap_app. Qed.

Lemma scrape_all (urls : list string) :
  let run := for_results (λ u, (scrape_url c u, [ScrapeUrl u])) urls in
  run.1 = scrape_url c <$> urls ∧ scraped run.2 = urls.
Proof.
  induction urls as [|u urls IH]; [done|]. cbn [for_results].
  destruct (for_results _ urls) as [results log]. simpl in *.
  destruct IH as [-> Hlog]. unfold scraped in *. simpl. by rewrite Hlog.
Qed.

Lemma link_validation_stage_scrapes_nothing skip_links (results : list PageResult) :
  scraped (link_validation_stage c skip_links results).2 = [].
Proof.
  unfold link_validation_stage. destruct skip_links; simpl; [done|].
  pose proof (for_results_log
                (λ e, match e with ScrapeUrl u => Some u | _ => None end = None)
                (validate_result c) results) as Hlog.
  destruct (for_results (validate_result c) results) as [results' log].
  simpl in *. apply omap_all_None. apply Hlog.
  intros r. unfold validate_result.
  destruct (Str.truthy (error r)); [constructor|].
  destruct (fetch_page c (url r)); by repeat constructor.
Qed.

Lemma apply_limit_prefix (limit : option Z) (urls : list string) :
  apply_limit limit urls `prefix_of` urls.
Proof.
  unfold apply_limit. destruct limit as [n|]; [|done].
  case_decide; [|done]. apply prefix_take.
Qed.

Lemma apply_limit_length (limit : option Z) (urls : list string) :
  length (apply_limit limit urls)
  = match limit with
    | Some n => if decide (0 < n)%Z then Z.to_nat n `min` length urls
                else length urls
    | None => length urls
    end.
Proof.
  unfold apply_limit. destruct limit as [n|]; [|done].
  case_decide; [|done]. by rewrite length_take.
Qed.

Lemma apply_limit_nonempty (limit : option Z) (urls : list string) :
  urls ≠ [] → apply_limit limit urls ≠ [].
Proof.
  intros Hurls Hnil. apply (f_equal length) in Hnil.
  rewrite apply_limit_length in Hnil. destruct urls; [done|]. simpl in Hnil.
  destruct limit as [n|]; [|done]. case_decide; [|done]. lia.
Qed.

(** Steps 2 to 5 from a list of URLs: what is scraped, how many results
    there are, and what is handed over at the end. *)
Lemma analyse_run (urls : list string) :
  ∃ results dt dd log,
    analyse c args urls = Finished results dt dd log ∧
    scraped log = urls ∧
    length results = length urls ∧
    detect_duplicates results = (dt, dd) ∧
    head log = Some NewSEOScraper ∧
    last log = Some (Export (args_output args)) ∧
    Forall2 (λ u r, same_page_fields (scrape_url c u) r) urls results.
Proof.
  unfold analyse.
  destruct (scrape_all urls) as [Hresults Hscraped].
  destruct (for_results (λ u, (scrape_url c u, [ScrapeUrl u])) urls)
    as [results log2]. simpl in Hresults, Hscraped. subst results.
  pose proof (link_validation_stage_scrapes_nothing (args_skip_links args)
                (scrape_url c <$> urls)) as Hlinks.
  pose proof (link_validation_stage_frame c (args_skip_links args)
                (scrape_url c <$> urls)) as Hframe.
  pose proof (link_validation_stage_same_fields c (args_skip_links args)
                (scrape_url c <$> urls)) as Hsame.
  destruct (link_validation_stage c (args_skip_links args) (scrape_url c <$> urls))
    as [results log3]. simpl in Hlinks, Hframe, Hsame.
  unfold duplicate_stage.
  destruct (detect_duplicates results) as [dt dd] eqn:Hdup.
  eexists _, _, _, _. split; [done|]. split_and!.
  - change (scraped ([NewSEOScraper] ++ log2 ++ log3 ++ [Export (args_output args)])
            = urls).
    rewrite !scraped_app, Hscraped, Hlinks.
    change (urls ++ [] = urls). apply app_nil_r.
  - unfold add_duplicate_warnings. rewrite length_fmap.
    apply Forall2_length in Hframe. by rewrite length_fmap in Hframe.
  - rewrite <- Hdup. apply detect_duplicates_Forall2.
    apply add_duplicate_warnings_same_fields.
  - done.
  - rewrite app_comm_cons, !app_assoc. apply last_snoc.
  - apply Forall2_fmap_l in Hframe.
    unfold add_duplicate_warnings. apply Forall2_fmap_r.
    eapply Forall2_impl; [exact Hframe|].
    intros u r ((Hu & Ht & Hd & Ho & He) & _). simpl.
    destruct (add_duplicate_warning_frame dt dd r) as (Hu' & Ht' & Hd' & Ho' & He' & _).
    repeat split; congruence.
Qed.

End MainRun.

Section MainAnalysis.

Variables (net : Network) (c : Collaborators) (args : Args).

Lemma main_analyses (urls : list string) :
  has_scheme args = true →
  get_all_urls net (base_url_of args) = Return urls →
  urls ≠ [] →
  main net c args = analyse c args (apply_limit (args_limit args) urls).
Proof.
  unfold main, has_scheme, base_url_of. intros -> -> Hurls. simpl.
  by destruct urls.
Qed.

(** X14. When the sitemap holds URLs, [main] scrapes the URLs of the sorted
    list in their order, all of them without a limit or with a limit that
    is not positive, and the first [n] of them with the limit [n]; it has
    one result for each, and so at least one. *)
Theorem X14_limit_takes_the_first_urls
    (urls : list string)
    (Hscheme : has_scheme args = true)
    (Hurls : get_all_urls net (base_url_of args) = Return urls)
    (Hnonempty : urls ≠ []) :
  let run := main net c args in
  scraped (log_of run) = apply_limit (args_limit args) urls ∧
  apply_limit (args_limit args) urls `prefix_of` urls ∧
  length (results_of run)
  = match args_limit args with
    | Some n => if decide (0 < n)%Z then Z.to_nat n `min` length urls
                else length urls
    | None => length urls
    end ∧
  results_of run ≠ [].
Proof.
  intros run. subst run. rewrite (main_analyses urls Hscheme Hurls Hnonempty).
  destruct (analyse_run c args (apply_limit (args_limit args) urls))
    as (results & dt & dd & log & -> & Hscraped & Hlength & _).
  simpl. split_and!; [done|apply apply_limit_prefix| |].
  - by rewrite Hlength, apply_limit_length.
  - intros ->. simpl in Hlength. symmetry in Hlength.
    apply length_zero_iff_nil in Hlength.
    by apply (apply_limit_nonempty (args_limit args) urls).
Qed.

(** X15. A run of [main] that finishes has at least one result; its
    results are, in their order and but for what the stages add, the
    records scraped for the URLs of its [scrape_url] calls; the two lists
    of duplicates it hands to the exporter are those of the results it
    hands over with them; and the export is its last call, the
    construction of the scraper its first. *)
Theorem X15_finished_run_is_consistent
    (results : list PageResult) (dt dd : list string) (log : list Event)
    (Hrun : main net c args = Finished results dt dd log) :
  results ≠ [] ∧
  Forall2 (λ u r, same_page_fields (scrape_url c u) r) (scraped log) results ∧
  detect_duplicates results = (dt, dd) ∧
  head log = Some NewSEOScraper ∧
  last log = Some (Export (args_output args)).
Proof.
  destruct (main_outcome net c args)
    as [[_ Hexit]|[(_ & ? & ? & _ & Hexit)|[(_ & _ & Hexit)
       |(_ & urls & Hnonempty & _ & Hanalyse)]]];
    try congruence.
  rewrite Hanalyse in Hrun.
  destruct (analyse_run c args (apply_limit (args_limit args) urls))
    as (results' & dt' & dd' & log' & Hrun' & Hscraped & Hlength & Hdup
        & Hhead & Hlast & Hpages).
  rewrite Hrun' in Hrun. simplify_eq.
  split_and!; try done; [|by rewrite Hscraped].
  intros ->. simpl in Hlength. symmetry in Hlength.
  apply length_zero_iff_nil in Hlength.
  by apply (apply_limit_nonempty (args_limit args) urls).
Qed.

End MainAnalysis.

Lemma X14_limit_takes_the_first_urls_witness :
  let run :=
    main (Examples.serving Examples.posts_document) Examples.collaborators limited in
  scraped (log_of run) = ["https://example.com/p/1"; "https://example.com/p/2"] ∧
  length (results_of run) = 2.
Proof.
  destruct (X14_limit_takes_the_first_urls
              (Examples.serving Examples.posts_document)
              Examples.collaborators limited
              ["https://example.com/p/1"; "https://example.com/p/2";
               "https://example.com/p/3"]) as (Hscraped & _ & Hlength & _).
  - reflexivity.
  - vm_compute. reflexivity.
  - discriminate.
  - split; [exact Hscraped|exact Hlength].
Defined.

Lemma X15_finished_run_is_consistent_witness :
  ∃ results dt dd log,
    main (Examples.serving Examples.posts_document) Examples.collaborators limited
    = Finished results dt dd log ∧
    results ≠ [] ∧
    detect_duplicates results = (dt, dd).
Proof.
  assert (∃ results dt dd log,
            main (Examples.serving Examples.posts_document)
                 Examples.collaborators limited
            = Finished results dt dd log) as (results & dt & dd & log & Hrun)
    by (vm_compute; by eexists _, _, _, _).
  exists results, dt, dd, log. split; [exact Hrun|].
  destruct (X15_finished_run_is_consistent _ _ _ _ _ _ _ Hrun)
    as (Hresults & _ & Hdup & _).
  split; [exact Hresults|exact Hdup].
Defined.

(** ** The base URL of the parser *)

Section BaseUrl.

Implicit Types (s t : string) (c : ascii).

Lemma append_nil_r s : s +:+ "" = s.
Proof. induction s as [|a s IH]; [done|]. by rewrite append_String, IH. Qed.

Lemma append_assoc s t u : (s +:+ t) +:+ u = s +:+ (t +:+ u).
Proof. induction s as [|a s IH]; [done|]. by rewrite !append_String, IH. Qed.

Lemma rev_app_append s t u : String.rev_app s t +:+ u = String.rev_app s (t +:+ u).
Proof.
  revert t. induction s as [|a s IH]; intros t; [done|].
  cbn [String.rev_app]. by rewrite IH, append_String.
Qed.

Lemma rev_app_rev_app s t u :
  String.rev_app (String.rev_app s t) u = String.rev_app t (s +:+ u).
Proof.
  revert t u. induction s as [|a s IH]; intros t u; [done|].
  cbn [String.rev_app]. rewrite IH. cbn [String.rev_app].
  by rewrite append_String.
Qed.

Lemma rev_rev s : String.rev (String.rev s) = s.
Proof.
  unfold String.rev. rewrite rev_app_rev_app. cbn [String.rev_app].
  apply append_nil_r.
Qed.

Lemma rev_append s t : String.rev (s +:+ t) = String.rev t +:+ String.rev s.
Proof.
  unfold String.rev.
  assert (∀ u, String.rev_app (s +:+ t) u = String.rev_app t (String.rev_app s u))
    as ->.
  { induction s as [|a s IH]; intros u; [done|].
    rewrite append_String. cbn [String.rev_app]. apply IH. }
  by rewrite rev_app_append.
Qed.

Lemma rev_replicate_char k c :
  String.rev (replicate_char k c) = replicate_char k c.
Proof.
  induction k as [|k IH]; [done|].
  change (replicate_char (S k) c) with (String c "" +:+ replicate_char k c) at 1.
  rewrite rev_append, IH. clear IH.
  induction k as [|k IH]; [done|]. simpl.
  rewrite append_String. by f_equal.
Qed.

Lemma lstrip_char_split c s :
  ∃ k, s = replicate_char k c +:+ Str.lstrip_char c s.
Proof.
  induction s as [|a s [k IH]]; [by exists 0|]. cbn [Str.lstrip_char].
  case_decide as Ha.
  - subst a. exists (S k). simpl. rewrite append_String. by f_equal.
  - by exists 0.
Qed.

Lemma lstrip_char_head c s t : Str.lstrip_char c s ≠ String c t.
Proof.
  induction s as [|a s IH]; [done|]. cbn [Str.lstrip_char].
  case_decide; [done|]. intros ?; simplify_eq.
Qed.

Lemma lstrip_char_idemp c s :
  Str.lstrip_char c (Str.lstrip_char c s) = Str.lstrip_char c s.
Proof.
  induction s as [|a s IH]; [done|]. cbn [Str.lstrip_char].
  case_decide as Ha; [done|]. cbn [Str.lstrip_char]. by rewrite decide_False.
Qed.

Lemma rstrip_char_spec c s :
  (∀ t, Str.rstrip_char c s ≠ t +:+ String c "") ∧
  Str.rstrip_char c (Str.rstrip_char c s) = Str.rstrip_char c s ∧
  ∃ k, s = Str.rstrip_char c s +:+ replicate_char k c.
Proof.
  unfold Str.rstrip_char. split_and!.
  - intros t Heq. apply (f_equal String.rev) in Heq.
    rewrite rev_rev, rev_append in Heq.
    by apply lstrip_char_head in Heq.
  - by rewrite rev_rev, lstrip_char_idemp.
  - destruct (lstrip_char_split c (String.rev s)) as [k Hk].
    exists k. apply (f_equal String.rev) in Hk.
    by rewrite rev_rev, rev_append, rev_replicate_char in Hk.
Qed.

(** X16. The base URL the parser keeps is the URL it is given without its
    trailing slashes: it does not end with a slash, only slashes at the end
    were removed, and removing them again changes nothing, so that the URL
    [main] has already stripped is kept as it is. *)
Theorem X16_base_url_has_no_trailing_slash (base_url : string) (args : Args) :
  (∀ t, init base_url ≠ t +:+ "/") ∧
  (∃ k, base_url = init base_url +:+ replicate_char k "/") ∧
  init (init base_url) = init base_url ∧
  base_url_of args = Str.rstrip_char "/" (args_url args).
Proof.
  unfold base_url_of, init.
  destruct (rstrip_char_spec "/" base_url) as (Hend & Hidemp & Hsplit).
  destruct (rstrip_char_spec "/" (args_url args)) as (_ & Hargs & _).
  by split_and!.
Qed.

End BaseUrl.

(** ** A sitemap that is found and cannot be read *)

(** X17. When the sitemap that [find_sitemap] found cannot be fetched or
    parsed, [get_all_urls] raises nothing: the failure is caught in
    [parse_sitemap], one request is made, and the empty list is returned,
    on which [main] exits with the message that the sitemap holds no
    URL. *)
Theorem X17_unreadable_sitemap_gives_the_empty_list
    (net : Network) (base_url sitemap_url : string)
    (Hfound : find_sitemap net base_url = Some sitemap_url)
    (Hurl : sitemap_url ≠ "")
    (Hunreadable : sitemaps net !! sitemap_url = None) :
  (requests <$> parse_sitemap_run (sitemaps net) sitemap_url) = Some [sitemap_url] ∧
  get_all_urls net base_url = Return [] ∧
  ∀ c args,
    has_scheme args = true →
    base_url_of args = base_url →
    main net c args = Exit 1 "Chyba: V sitemapě nebyly nalezeny žádné URL".
Proof.
  assert (parse_sitemap_run (sitemaps net) sitemap_url
          = Some {| all_urls := ∅; visited_sitemaps := {[sitemap_url]} ∪ ∅;
                    requests := [sitemap_url] |}) as Hrun.
  { unfold parse_sitemap_run. simpl.
    rewrite decide_False by apply not_elem_of_empty. by rewrite Hunreadable. }
  assert (get_all_urls net base_url = Return []) as Hreturn.
  { unfold get_all_urls, parse_sitemap. rewrite Hfound.
    destruct sitemap_url as [|a s]; [done|]. simpl in *. rewrite Hrun. simpl.
    by rewrite sorted_empty. }
  split_and!; [by rewrite Hrun|done|].
  intros c args Hscheme Hbase. unfold main, has_scheme, base_url_of in *.
  by rewrite Hscheme, Hbase, Hreturn.
Qed.

Lemma X17_unreadable_sitemap_gives_the_empty_list_witness :
  get_all_urls announcing "https://example.com" = Return [] ∧
  main announcing Examples.collaborators limited
  = Exit 1 "Chyba: V sitemapě nebyly nalezeny žádné URL".
Proof.
  destruct (X17_unreadable_sitemap_gives_the_empty_list
              announcing "https://example.com" "https://example.com/sitemap.xml"
              eq_refl) as (_ & Hreturn & Hmain).
  - discriminate.
  - reflexivity.
  - split; [exact Hreturn|]. by apply Hmain.
Defined.
